(** * Insurance claims fulfillment automation: the orchestration core

    A shallow embedding of [fulfillment_processor.py] and [mail_monitor.py],
    with the [add_fulfillment] endpoint of [apis/fulfillment_api.py] and the
    part of [mongodb_manager.py] they rely on, and the properties the
    specification states about them.  The mailbox, the directory service,
    the mail service, the reasoning backend and the database are answers of
    an environment.

    Python [str] values are modelled as [string]: a sequence of 8-bit
    characters read as the code points U+0000..U+00FF.  On that range
    [isspace], [isdigit] and [lower] below agree with Python's [str.isspace],
    the regular expression classes [\s] and [\d], and [str.lower]. *)

From Stdlib Require Import String Ascii List Arith Lia DecimalString Bool.
Import ListNotations.
Open Scope string_scope.
Open Scope nat_scope.
Open Scope bool_scope.

(** ** Text primitives *)

Module Text.

Definition nl : string := String "010"%char "".

Definition isspace (c : ascii) : bool :=
  let n := nat_of_ascii c in
  ((9 <=? n) && (n <=? 13)) || ((28 <=? n) && (n <=? 32))
  || (n =? 133) || (n =? 160).

Definition isdigit (c : ascii) : bool :=
  let n := nat_of_ascii c in (48 <=? n) && (n <=? 57).

Definition lower_char (c : ascii) : ascii :=
  let n := nat_of_ascii c in
  if ((65 <=? n) && (n <=? 90))
     || ((192 <=? n) && (n <=? 222) && negb (n =? 215))
  then ascii_of_nat (n + 32) else c.

(** [s.lower()] *)
Fixpoint lower (s : string) : string :=
  match s with
  | EmptyString => EmptyString
  | String c t => String (lower_char c) (lower t)
  end.

(** [s.startswith(p)] *)
Definition startswith (s p : string) : bool := String.prefix p s.

(** [s[n:]] *)
Fixpoint drop (n : nat) (s : string) : string :=
  match n, s with
  | O, _ => s
  | S _, EmptyString => EmptyString
  | S k, String _ t => drop k t
  end.

(** [s[:n]] *)
Fixpoint take (n : nat) (s : string) : string :=
  match n, s with
  | O, _ => EmptyString
  | S _, EmptyString => EmptyString
  | S k, String c t => String c (take k t)
  end.

(** [needle in hay] *)
Fixpoint contains (needle hay : string) : bool :=
  String.prefix needle hay ||
  match hay with
  | EmptyString => false
  | String _ t => contains needle t
  end.

(** [any(keyword in text for keyword in keywords)] *)
Definition any_in (keywords : list string) (text : string) : bool :=
  existsb (fun keyword => contains keyword text) keywords.

(** [s.lstrip()] *)
Fixpoint lstrip (s : string) : string :=
  match s with
  | EmptyString => EmptyString
  | String c t => if isspace c then lstrip t else s
  end.

(** [s.rstrip()] *)
Fixpoint rstrip (s : string) : string :=
  match s with
  | EmptyString => EmptyString
  | String c t =>
      match rstrip t with
      | EmptyString => if isspace c then EmptyString else String c EmptyString
      | r => String c r
      end
  end.

(** [s.strip()] *)
Definition strip (s : string) : string := rstrip (lstrip s).

(** [s.split('\n')]: never empty, [''.split('\n') == ['']]. *)
Fixpoint split_lines (s : string) : list string :=
  match s with
  | EmptyString => [EmptyString]
  | String c t =>
      if Ascii.eqb c "010"%char then EmptyString :: split_lines t
      else match split_lines t with
           | [] => [String c EmptyString]
           | l :: ls => String c l :: ls
           end
  end.

(** [sep.join(items)] *)
Definition join (sep : string) (items : list string) : string :=
  String.concat sep items.

(** [s.replace(old, '')] for a non-empty [old]; the fuel is the length of
    [s], which the scan never exceeds. *)
Fixpoint remove_all_fuel (fuel : nat) (old s : string) : string :=
  match fuel with
  | O => s
  | S k =>
      match s with
      | EmptyString => EmptyString
      | String c t =>
          if String.prefix old s
          then remove_all_fuel k old (drop (String.length old) s)
          else String c (remove_all_fuel k old t)
      end
  end.

Definition remove_all (old s : string) : string :=
  remove_all_fuel (String.length s) old s.

(** [str(n)] for a non-negative integer *)
Definition str_of_nat (n : nat) : string :=
  NilEmpty.string_of_uint (Nat.to_uint n).

(** [s.find(c)]: index of the first occurrence, [None] for Python's -1. *)
Fixpoint find_char (c : ascii) (s : string) : option nat :=
  match s with
  | EmptyString => None
  | String d t =>
      if Ascii.eqb d c then Some 0
      else option_map S (find_char c t)
  end.

(** [s.rfind(c)]: index of the last occurrence, [None] for Python's -1. *)
Fixpoint rfind_char (c : ascii) (s : string) : option nat :=
  match s with
  | EmptyString => None
  | String d t =>
      match rfind_char c t with
      | Some i => Some (S i)
      | None => if Ascii.eqb d c then Some 0 else None
      end
  end.

(** [re.search] of a pattern given by its matcher at one position: the
    leftmost position at which the matcher succeeds. *)
Fixpoint search {A : Type} (at_pos : string -> option A) (s : string)
  : option A :=
  match at_pos s with
  | Some a => Some a
  | None =>
      match s with
      | EmptyString => None
      | String _ t => search at_pos t
      end
  end.

(** Greedy [\s*] followed by something that cannot start with white space:
    all leading white space is consumed. *)
Definition skip_space (s : string) : string := lstrip s.

(** Greedy [[\d,]+] at the start of [s]: at least one digit or comma. *)
Definition amount_char (c : ascii) : bool :=
  isdigit c || Ascii.eqb c ","%char.

Definition digits_here (s : string) : bool :=
  match s with
  | String c _ => amount_char c
  | EmptyString => false
  end.

End Text.

Import Text.

(** ** Data model *)

(** Values of the dictionaries that cross the module boundaries (the
    classification results, the [user] object of the directory reply).
    [PyOther] stands for any other value (float, list, nested object) and
    carries its truth value. *)
Inductive pyval : Type :=
| PyNone
| PyBool (b : bool)
| PyInt (n : nat)
| PyStr (s : string)
| PyOther (truth : bool).

Definition pydict : Type := list (string * pyval).

(** [d.get(key)] *)
Fixpoint dict_get (key : string) (d : pydict) : option pyval :=
  match d with
  | [] => None
  | (k, v) :: rest => if String.eqb k key then Some v else dict_get key rest
  end.

(** Python truth value *)
Definition truthy (v : pyval) : bool :=
  match v with
  | PyNone => false
  | PyBool b => b
  | PyInt n => negb (n =? 0)
  | PyStr s => negb (String.eqb s "")
  | PyOther t => t
  end.

(** The [email_data] dictionary built by [fetch_new_mails_to_queue]. *)
Record email_data : Type := {
  email_id : string;
  sender_email : string;
  subject : string;
  content : string;
  claim_id : string;
  attachment_count : nat;
  attachment_paths : list string;
  llm_filter_result : option pydict
}.

(** The terminal assessment status: the only two values the variable
    [status] of [parse_fulfillment_response] takes. *)
Inductive status : Type := COMPLETED | PENDING.

Definition status_eqb (a b : status) : bool :=
  match a, b with
  | COMPLETED, COMPLETED | PENDING, PENDING => true
  | _, _ => false
  end.

(** The dictionary returned by [parse_fulfillment_response]. *)
Record assessment : Type := {
  a_status : status;
  a_missing_items : string;
  a_satisfied_items : list string;
  a_email_content : string
}.

(** What [LLM.invoke] gives back: it raises, or the reply has a [content]
    that is a [str], or a content of another type (with its [str()] and its
    truth value). *)
Inductive llm_content : Type :=
| StrContent (text : string)
| OtherContent (repr : string) (truth : bool).

Inductive llm_outcome : Type :=
| LLMRaises
| LLMReply (c : llm_content).

(** Outcome of a [requests] call: an exception of the transport, or a
    response with its status code and body. *)
Inductive http (B : Type) : Type :=
| TransportError
| Response (status_code : nat) (body : B).
Arguments TransportError {B}.
Arguments Response {B} status_code body.

(** The [user] entry of the directory reply, as [data.get('user', {})] sees
    it: absent, an object, or a value that is not an object (such as
    [null]). *)
Inductive user_value : Type :=
| UserAbsent
| UserObject (fields : pydict)
| UserNotObject.

Record directory_json : Type := {
  dj_status : option string;
  dj_user : user_value
}.

(** How [mongodb_manager.connect] ends: connected; the client object was
    created and [server_info] raised; or creating the client raised. *)
Inductive connect_outcome : Type :=
| Connected
| ServerUnreachable
| ClientError.

(** Body of [POST /send-mail] *)
Record mail_request : Type := {
  mail_id : string;
  mail_subject : string;
  mail_content : string
}.

(** One archived blob of [upload_complete_email] *)
Record archived_file : Type := {
  file_id : string;
  filename : string
}.

(** The [upload_result] dictionary of [upload_complete_email] *)
Record mongodb_result : Type := {
  upload_timestamp : nat;
  mr_mail_content : option archived_file;
  mr_attachments : list archived_file
}.

(** Body of [POST /add-fulfillment] ([FulfillmentRequest]) *)
Record fulfillment_request : Type := {
  user_mail : string;
  fr_claim_id : string;
  fr_mail_content : string;
  mail_content_s3_url : option string;
  fr_attachment_count : nat;
  attachment_s3_urls : option (list string);
  local_attachment_paths : option (list string);
  fulfillment_status : string;
  missing_items : option string;
  s3_upload_timestamp : option nat;
  mail_content_file_id : option string;
  attachment_file_ids : option (list string)
}.

(** A document of the [fulfillment] collection, as [add_fulfillment]
    builds it. *)
Record fulfillment_doc : Type := {
  doc_id : nat;
  doc_user_mail : string;
  doc_claim_id : string;
  doc_mail_content : string;
  doc_mail_content_file_id : option string;
  doc_attachment_count : nat;
  doc_attachment_file_ids : list string;
  doc_local_attachment_paths : option (list string);
  doc_fulfillment_status : string;
  doc_missing_items : option string;
  doc_s3_upload_timestamp : option nat;
  doc_mail_content_s3_url : option string;
  doc_attachment_s3_urls : option (list string);
  doc_created_at : nat
}.

(** A document of the [mail_tracking] collection *)
Record tracking_doc : Type := {
  mail_count : nat;
  last_connection_time : nat
}.

(** ** The environment

    Library functions that are taken as given, the prompt assets (absent
    from the sources), and the remote collaborators.  A remote collaborator
    answers as a function of the logical time of the call, so that two calls
    with the same arguments may differ. *)
Record environment : Type := {
  (** [json.loads]; [None] is [JSONDecodeError] *)
  json_loads : string -> option pydict;
  (** [template.format] with keyword fields; [None] when it raises *)
  str_format : string -> list (string * string) -> option string;
  (** content of a file of the prompts folder; [None] when unreadable *)
  prompt_file : string -> option string;
  (** [LLM.invoke] *)
  llm_invoke : nat -> llm_outcome;
  (** [GET /user/{email}]; the body is [None] when it is not a JSON object *)
  directory_get : nat -> string -> http (option directory_json);
  (** [POST /send-mail] *)
  mail_post : nat -> mail_request -> http unit;
  (** whether [POST /add-fulfillment] reaches the service *)
  fulfillment_api_up : nat -> bool;
  (** pydantic's [EmailStr] validation of the [user_mail] field *)
  email_str_valid : string -> bool;
  (** [db.fulfillment.insert_one]: the new id, or [None] when it raises *)
  db_insert_one : nat -> option nat;
  (** [mongodb_manager.connect] *)
  mongo_connect : nat -> connect_outcome;
  (** [fs.put]: the id of the blob, or [None] when it raises *)
  gridfs_put : nat -> option string;
  (** whether [os.remove] / [os.rmdir] of a path succeeds *)
  os_remove : nat -> string -> bool;
  (** the inbox size of [mail_connection.select]; [None] on failure *)
  imap_count : nat -> option nat;
  (** the record built from message [i] and the per-claim folder made for
      its attachments; [None] when fetching or parsing the message fails *)
  imap_ingest : nat -> nat -> option (email_data * string);
  (** whether an exception that no callee handles reaches the handler of
      the queue loop while the record dequeued at that time is processed *)
  record_fault : nat -> bool;
  (** whether reading the latest [mail_tracking] document succeeds *)
  tracking_find : nat -> bool;
  (** whether inserting a [mail_tracking] document succeeds *)
  tracking_insert : nat -> bool
}.

(** [load_prompt_file]: the stripped content, [None] on any error. *)
Definition load_prompt_file (E : environment) (name : string)
  : option string :=
  option_map strip (prompt_file E name).

(** ** Fulfillment assessment: [identify_satisfied_requirements] and
    [parse_fulfillment_response] *)

Module Assessment.

(** The check mark U+2713 that starts every satisfied item, carried as its
    three UTF-8 bytes, and the blank after it. *)
Definition tick : string :=
  String "226"%char (String "156"%char (String "147"%char " ")).

Definition email_item : string := tick ++ "User email address provided".
Definition reason_item : string := tick ++ "Reason for claim provided".
Definition amount_item : string := tick ++ "Claim amount specified".
Definition documents_item (n : nat) : string :=
  tick ++ "Supporting documents provided (" ++ str_of_nat n ++ " attachments)".
Definition some_documents_item (n : nat) : string :=
  tick ++ "Some documents provided (" ++ str_of_nat n
       ++ " attachments, additional may be needed)".

Definition reason_keywords : list string :=
  ["reason"; "description"; "what happened"; "incident"; "cause"; "explain"].

Definition amount_keywords : list string :=
  ["amount"; "dollar"; "cost"; "money"; "price"; "value"; "sum"; "total";
   "claim"; "damage"; "bill"; "specific claim amount"; "currency"].

Definition proof_keywords : list string :=
  ["proof"; "document"; "attachment"; "evidence"; "support"; "bill";
   "receipt"; "photo"; "police report"; "medical"].

(** A pattern [label opt? \s* [\d,]+] matched at the start of [s]. *)
Definition labelled (label : string) (opt : option ascii) (s : string)
  : bool :=
  String.prefix label s &&
  (let r := drop (String.length label) s in
   let r := match opt, r with
            | Some c, String d t => if Ascii.eqb d c then t else r
            | _, _ => r
            end in
   digits_here (skip_space r)).

(** The pattern [[\d,]{3,}] matched at the start of [s]. *)
Definition grouped_number (s : string) : bool :=
  match s with
  | String a (String b (String c _)) =>
      amount_char a && amount_char b && amount_char c
  | _ => false
  end.

Definition monetary_patterns : list (string -> bool) :=
  [ labelled "$" None;
    labelled "rs" (Some "."%char);
    labelled "inr" None;
    labelled "usd" None;
    labelled "amount" (Some ":"%char);
    labelled "cost" (Some ":"%char);
    labelled "claim" (Some ":"%char);
    labelled "damage" (Some ":"%char);
    labelled "total" (Some ":"%char);
    grouped_number ].

(** [re.search(pattern, text)] as a truth value *)
Definition re_found (pattern : string -> bool) (text : string) : bool :=
  match search (fun s => if pattern s then Some tt else None) text with
  | Some _ => true
  | None => false
  end.

(** The local [has_monetary_value] of [identify_satisfied_requirements]. *)
Definition has_monetary_value (email : email_data) : bool :=
  let email_content := lower (content email) in
  existsb (fun pattern => re_found pattern email_content) monetary_patterns.

Definition identify_satisfied_requirements
  (email : email_data) (missing_items_text : string) : list string :=
  let satisfied := [email_item] in
  let missing_lower := lower missing_items_text in
  let satisfied :=
    if negb (any_in reason_keywords missing_lower)
    then (satisfied ++ [reason_item])%list else satisfied in
  (* computed by the source and not read afterwards *)
  let _monetary := has_monetary_value email in
  let satisfied :=
    if negb (any_in amount_keywords missing_lower)
    then (satisfied ++ [amount_item])%list else satisfied in
  if 0 <? attachment_count email then
    if negb (any_in proof_keywords missing_lower)
    then (satisfied ++ [documents_item (attachment_count email)])%list
    else (satisfied ++ [some_documents_item (attachment_count email)])%list
  else satisfied.

(** [FULFILLMENT_STATUS:\s*(COMPLETED|PENDING)] at the start of [s] *)
Definition status_at (s : string) : option status :=
  if String.prefix "FULFILLMENT_STATUS:" s then
    let r := skip_space (drop 19 s) in
    if String.prefix "COMPLETED" r then Some COMPLETED
    else if String.prefix "PENDING" r then Some PENDING
    else None
  else None.

(** The lookahead [(?=\n\n|FULFILLMENT_STATUS:|$)]; [$] holds at the end of
    the text and before a final line feed. *)
Definition stop_here (s : string) : bool :=
  String.prefix (nl ++ nl) s || String.prefix "FULFILLMENT_STATUS:" s
  || String.eqb s "" || String.eqb s nl.

(** The lazy group [(.*?)] in DOTALL mode: the shortest text up to a
    position where the lookahead holds. *)
Fixpoint lazy_until (s : string) : string :=
  if stop_here s then EmptyString
  else match s with
       | EmptyString => EmptyString
       | String c t => String c (lazy_until t)
       end.

(** [MISSING_ITEMS:\s*(.*?)(?=\n\n|FULFILLMENT_STATUS:|$)] at the start of
    [s]: the captured group. *)
Definition missing_at (s : string) : option string :=
  if String.prefix "MISSING_ITEMS:" s
  then Some (lazy_until (skip_space (drop 14 s)))
  else None.

Definition default_missing : string := "- Required fulfillment items missing".

(** The loop that puts a bullet in front of every non-empty line. *)
Fixpoint format_lines (lines : list string) : list string :=
  match lines with
  | [] => []
  | line :: rest =>
      let line := strip line in
      let line :=
        if negb (String.eqb line "") && negb (startswith line "-")
        then "- " ++ line else line in
      if negb (String.eqb line "")
      then line :: format_lines rest else format_lines rest
  end.

(** The missing-items text of a reply whose status is PENDING. *)
Definition extract_missing_items (llm_response : string) : string :=
  match search missing_at llm_response with
  | Some group =>
      join nl (format_lines (split_lines (strip group)))
  | None => default_missing
  end.

(** The body of the notification for a PENDING claim; [None] when
    formatting the template raises. *)
Definition pending_email_content (E : environment)
  (satisfied_items : list string) (missing_items : string)
  : option string :=
  let email_template := load_prompt_file E "fulfillment_pending_email.txt" in
  match email_template with
  | Some (String c rest) =>
      let email_template := String c rest in
      let lines := split_lines email_template in
      let content_start :=
        if (1 <? length lines) && String.eqb (nth 1 lines "x") ""
        then 2 else 1 in
      let template_content := join nl (skipn content_start lines) in
      let satisfied_items_text :=
        match satisfied_items with
        | [] => "None identified"
        | _ => join nl satisfied_items
        end in
      str_format E template_content
        [("satisfied_items", satisfied_items_text);
         ("missing_items", missing_items)]
  | _ =>
      let satisfied_items_text :=
        match satisfied_items with
        | [] => "None"
        | _ => join ", " (map (remove_all tick) satisfied_items)
        end in
      Some ("Dear Customer," ++ nl ++ nl
            ++ "Thank you for submitting your insurance claim. We have reviewed your submission:"
            ++ nl ++ nl
            ++ "REQUIREMENTS SATISFIED: " ++ satisfied_items_text ++ nl ++ nl
            ++ "MISSING REQUIREMENTS: " ++ missing_items ++ nl ++ nl
            ++ "Please reply with the missing information and supporting documents."
            ++ nl ++ nl
            ++ "Best regards," ++ nl
            ++ "Insurance Claims Team")
  end.

(** The status, the missing items and the satisfied items that
    [parse_fulfillment_response] settles before it writes the notification
    body. *)
Definition settle (llm_response : string) (email : email_data)
  : status * string * list string :=
  let status :=
    match search status_at llm_response with
    | Some s => s
    | None => PENDING
    end in
  match status with
  | PENDING =>
      let missing_items := extract_missing_items llm_response in
      let satisfied_items :=
        identify_satisfied_requirements email missing_items in
      if (4 <=? length satisfied_items)
         && (String.eqb missing_items ""
             || String.eqb (strip missing_items) ""
             || String.eqb missing_items default_missing)
      then (COMPLETED, "", [])
      else (PENDING, missing_items, satisfied_items)
  | COMPLETED =>
      (COMPLETED, "",
       [email_item; reason_item; amount_item;
        documents_item (attachment_count email)])
  end.

(** [parse_fulfillment_response]; [None] is the [except] branch. *)
Definition parse_fulfillment_response (E : environment)
  (llm_response : string) (email : email_data) : option assessment :=
  let '(status, missing_items, satisfied_items) :=
    settle llm_response email in
  match status with
  | PENDING =>
      match pending_email_content E satisfied_items missing_items with
      | Some email_content =>
          Some {| a_status := status;
                  a_missing_items := missing_items;
                  a_satisfied_items := satisfied_items;
                  a_email_content := email_content |}
      | None => None
      end
  | COMPLETED =>
      Some {| a_status := status;
              a_missing_items := missing_items;
              a_satisfied_items := satisfied_items;
              a_email_content := "" |}
  end.

End Assessment.

(** ** The classifier: [filter_email_with_llm] and its two fallbacks *)

Module Classifier.

Definition insurance_keywords : list string :=
  ["claim"; "insurance"; "policy"; "coverage"; "damage"; "accident"].

(** The generator condition [keyword in subject or keyword in content]. *)
Definition keyword_matches (email : email_data) (keyword : string) : bool :=
  contains keyword (lower (subject email))
  || contains keyword (lower (content email)).

Definition keyword_count (email : email_data) : nat :=
  length (filter (keyword_matches email) insurance_keywords).

Definition _fallback_insurance_check (email : email_data) : pydict :=
  let keyword_count := keyword_count email in
  let is_insurance := 2 <=? keyword_count in
  [ ("is_insurance", PyBool is_insurance);
    ("confidence", PyInt 30);
    ("reasoning", PyStr ("Fallback keyword check found "
                         ++ str_of_nat keyword_count
                         ++ " insurance keywords"));
    ("category", PyStr "fallback_analysis") ].

Definition _parse_llm_response_fallback (response_content : string)
  : pydict :=
  let response_lower := lower response_content in
  let is_insurance :=
    any_in ["true"; "yes"; "insurance"; "claim"] response_lower in
  let category :=
    if contains "auto" response_lower || contains "car" response_lower
    then "auto_claim"
    else if contains "health" response_lower
            || contains "medical" response_lower
    then "health_inquiry"
    else if contains "home" response_lower
            || contains "property" response_lower
    then "property_claim"
    else "unknown" in
  [ ("is_insurance", PyBool is_insurance);
    ("confidence", PyInt 50);
    ("reasoning",
     PyStr "LLM response parsing failed, using fallback analysis");
    ("category", PyStr category) ].

(** The span [response_content[json_start:json_end]] when
    [json_start >= 0 and json_end > json_start]. *)
Definition json_span (response_content : string) : option string :=
  let json_start := find_char "{"%char response_content in
  let json_end :=
    match rfind_char "}"%char response_content with
    | Some i => i + 1
    | None => 0
    end in
  match json_start with
  | Some json_start =>
      if json_start <? json_end
      then Some (substring json_start (json_end - json_start)
                           response_content)
      else None
  | None => None
  end.

(** What [filter_email_with_llm] returns once [LLM.invoke] has ended. *)
Definition filter_result (E : environment) (email : email_data)
  (outcome : llm_outcome) : pydict :=
  match outcome with
  | LLMReply (StrContent response_content) =>
      match json_span response_content with
      | Some json_str =>
          match json_loads E json_str with
          | Some result => result
          | None => _fallback_insurance_check email
          end
      | None => _parse_llm_response_fallback response_content
      end
  | LLMReply (OtherContent repr _) => _parse_llm_response_fallback repr
  | LLMRaises => _fallback_insurance_check email
  end.

(** A well-formed classification result: the four fields, with a truth
    value, a confidence between 0 and 100 and two texts. *)
Definition well_formed (result : pydict) : bool :=
  match dict_get "is_insurance" result, dict_get "confidence" result,
        dict_get "reasoning" result, dict_get "category" result with
  | Some (PyBool _), Some (PyInt n), Some (PyStr _), Some (PyStr _) =>
      n <=? 100
  | _, _, _, _ => false
  end.

End Classifier.

(** ** The world the orchestration acts on *)

(** The calls made to the outside, each with what came back. *)
Inductive event : Type :=
| ClassifierCall (id : string) (outcome : llm_outcome)
| AssessmentCall (claim : string) (outcome : llm_outcome)
| DirectoryLookup (address : string) (reply : http (option directory_json))
| RegistrationNotice (request : mail_request) (reply : http unit)
| AddFulfillment (request : fulfillment_request) (reply : http (option nat))
| SendMail (request : mail_request) (reply : http unit)
| MongoConnect (outcome : connect_outcome)
| GridfsPut (name : string) (id : option string)
| RemoveFile (path : string) (removed : bool)
| RemoveDir (path : string) (removed : bool)
| FetchMessage (i : nat) (fetched : bool)
| CursorInsert (count : nat) (inserted : bool).

Record world : Type := {
  (** logical time: the number of calls made to the outside so far *)
  clock : nat;
  (** [email_queue], oldest first *)
  email_queue : list email_data;
  (** the [mail_tracking] collection, oldest first *)
  mail_tracking : list tracking_doc;
  (** the [fulfillment] collection, oldest first *)
  fulfillment : list fulfillment_doc;
  (** the local files and directories *)
  files : list string;
  dirs : list string;
  (** whether [mongodb_manager.client] is set *)
  mongo_client : bool;
  (** the calls made to the outside, oldest first *)
  log : list event
}.

Definition M (A : Type) : Type := world -> A * world.

Definition ret {A : Type} (a : A) : M A := fun w => (a, w).

Definition bind {A B : Type} (m : M A) (k : A -> M B) : M B :=
  fun w => let (a, w') := m w in k a w'.

Declare Scope monad_scope.
Delimit Scope monad_scope with monad.
Notation "x <- m ;; k" := (bind m (fun x => k))
  (at level 61, m at next level, right associativity) : monad_scope.
Notation "m ;;; k" := (bind m (fun _ => k))
  (at level 61, right associativity) : monad_scope.
Open Scope monad_scope.

(** The time of a call to the outside; the clock advances. *)
Definition now : M nat :=
  fun w => (clock w,
            {| clock := S (clock w); email_queue := email_queue w;
               mail_tracking := mail_tracking w;
               fulfillment := fulfillment w; files := files w;
               dirs := dirs w; mongo_client := mongo_client w;
               log := log w |}).

Definition emit (e : event) : M unit :=
  fun w => (tt,
            {| clock := clock w; email_queue := email_queue w;
               mail_tracking := mail_tracking w;
               fulfillment := fulfillment w; files := files w;
               dirs := dirs w; mongo_client := mongo_client w;
               log := (log w ++ [e])%list |}).

Definition set_queue (q : list email_data) : M unit :=
  fun w => (tt,
            {| clock := clock w; email_queue := q;
               mail_tracking := mail_tracking w;
               fulfillment := fulfillment w; files := files w;
               dirs := dirs w; mongo_client := mongo_client w;
               log := log w |}).

Definition set_mail_tracking (t : list tracking_doc) : M unit :=
  fun w => (tt,
            {| clock := clock w; email_queue := email_queue w;
               mail_tracking := t;
               fulfillment := fulfillment w; files := files w;
               dirs := dirs w; mongo_client := mongo_client w;
               log := log w |}).

Definition set_fulfillment (f : list fulfillment_doc) : M unit :=
  fun w => (tt,
            {| clock := clock w; email_queue := email_queue w;
               mail_tracking := mail_tracking w;
               fulfillment := f; files := files w;
               dirs := dirs w; mongo_client := mongo_client w;
               log := log w |}).

Definition set_files (f : list string) : M unit :=
  fun w => (tt,
            {| clock := clock w; email_queue := email_queue w;
               mail_tracking := mail_tracking w;
               fulfillment := fulfillment w; files := f;
               dirs := dirs w; mongo_client := mongo_client w;
               log := log w |}).

Definition set_dirs (d : list string) : M unit :=
  fun w => (tt,
            {| clock := clock w; email_queue := email_queue w;
               mail_tracking := mail_tracking w;
               fulfillment := fulfillment w; files := files w;
               dirs := d; mongo_client := mongo_client w;
               log := log w |}).

Definition set_mongo_client (b : bool) : M unit :=
  fun w => (tt,
            {| clock := clock w; email_queue := email_queue w;
               mail_tracking := mail_tracking w;
               fulfillment := fulfillment w; files := files w;
               dirs := dirs w; mongo_client := b;
               log := log w |}).

Definition get {A : Type} (field : world -> A) : M A :=
  fun w => (field w, w).

(** ** The fulfillment engine: [fulfillment_processor.py] *)

Module Fulfillment.

Import Assessment.

(** What [process_email_fulfillment] and [save_to_fulfillment_table] hand
    back: [True], [False], [None], or the id of the stored record (the text
    of an ObjectId: never empty, hence true). *)
Inductive pyresult : Type :=
| RTrue
| RFalse
| RNone
| RId (id : nat).

(** The truth value the caller tests. *)
Definition succeeded (r : pyresult) : bool :=
  match r with
  | RTrue | RId _ => true
  | RFalse | RNone => false
  end.

Definition in_list (p : string) (l : list string) : bool :=
  existsb (String.eqb p) l.

Definition remove_path (p : string) (l : list string) : list string :=
  filter (fun q => negb (String.eqb p q)) l.

(** [os.path.basename] *)
Definition basename (p : string) : string :=
  match rfind_char "/"%char p with
  | Some i => drop (i + 1) p
  | None => p
  end.

Fixpoint all_slashes (s : string) : bool :=
  match s with
  | EmptyString => true
  | String c t => Ascii.eqb c "/"%char && all_slashes t
  end.

Fixpoint rstrip_slashes (s : string) : string :=
  match s with
  | EmptyString => EmptyString
  | String c t =>
      match rstrip_slashes t with
      | EmptyString =>
          if Ascii.eqb c "/"%char then EmptyString else String c EmptyString
      | r => String c r
      end
  end.

(** [os.path.dirname] *)
Definition dirname (p : string) : string :=
  let head :=
    match rfind_char "/"%char p with
    | Some i => take (i + 1) p
    | None => EmptyString
    end in
  if negb (String.eqb head "") && negb (all_slashes head)
  then rstrip_slashes head else head.

(** [os.path.exists] *)
Definition path_exists (w : world) (p : string) : bool :=
  in_list p (files w) || in_list p (dirs w).

(** [not os.listdir(folder)] *)
Definition dir_is_empty (w : world) (folder : string) : bool :=
  negb (existsb (fun p => String.eqb (dirname p) folder)
                (files w ++ dirs w)%list).

(** The [request_data] dictionary of the [add_fulfillment] endpoint, with
    the id and the creation time the collection gives it. *)
Definition request_data (data : fulfillment_request) (id created : nat)
  : fulfillment_doc :=
  {| doc_id := id;
     doc_user_mail := user_mail data;
     doc_claim_id := fr_claim_id data;
     doc_mail_content := fr_mail_content data;
     doc_mail_content_file_id := mail_content_file_id data;
     doc_attachment_count := fr_attachment_count data;
     doc_attachment_file_ids :=
       match attachment_file_ids data with
       | Some ids => ids
       | None => []
       end;
     doc_local_attachment_paths := local_attachment_paths data;
     doc_fulfillment_status := fulfillment_status data;
     doc_missing_items := missing_items data;
     doc_s3_upload_timestamp := s3_upload_timestamp data;
     doc_mail_content_s3_url :=
       match mail_content_s3_url data with
       | Some (String _ _) => mail_content_s3_url data
       | _ => None
       end;
     doc_attachment_s3_urls :=
       match attachment_s3_urls data with
       | Some (_ :: _) => attachment_s3_urls data
       | _ => None
       end;
     doc_created_at := created |}.

Section WithEnvironment.

Variable E : environment.

(** [send_mail_via_service] *)
Definition send_mail_via_service (to_email subject content : string)
  : M bool :=
  let mail_request :=
    {| mail_id := to_email; mail_subject := subject;
       mail_content := content |} in
  t <- now ;;
  emit (SendMail mail_request (mail_post E t mail_request)) ;;;
  match mail_post E t mail_request with
  | Response status_code _ => ret (status_code =? 200)
  | TransportError => ret false
  end.

(** [assess_fulfillment_with_llm]: the reply content, or [None].  The
    requirements file only feeds the prompt and has a default text. *)
Definition assess_fulfillment_with_llm (email : email_data)
  : M (option llm_content) :=
  match load_prompt_file E "fulfillment_system_prompt.txt" with
  | Some (String _ _) =>
      t <- now ;;
      emit (AssessmentCall (claim_id email) (llm_invoke E t)) ;;;
      match llm_invoke E t with
      | LLMReply c => ret (Some c)
      | LLMRaises => ret None
      end
  | _ => ret None
  end.

(** The [add_fulfillment] endpoint of [apis/fulfillment_api.py] with
    [mongodb_manager.create_fulfillment_request]: the status code and the
    [fulfillment_id] of the reply. *)
Definition add_fulfillment (data : fulfillment_request)
  : M (nat * option nat) :=
  if email_str_valid E (user_mail data) then
    t <- now ;;
    match db_insert_one E t with
    | Some id =>
        docs <- get fulfillment ;;
        set_fulfillment (docs ++ [request_data data id t])%list ;;;
        ret (200, Some id)
    | None => ret (500, None)
    end
  else ret (422, None).

Definition nonempty_list {A : Type} (l : list A) : option (list A) :=
  match l with
  | [] => None
  | _ => Some l
  end.

Definition nonempty_string (s : string) : option string :=
  match s with
  | EmptyString => None
  | _ => Some s
  end.

(** The [api_data] dictionary of [save_to_fulfillment_table]. *)
Definition api_data (email : email_data) (status missing : string)
  (result : option mongodb_result) : fulfillment_request :=
  let local_paths := map basename (attachment_paths email) in
  match result, String.eqb status "completed" with
  | Some result, true =>
      let mail_content_file_id :=
        option_map file_id (mr_mail_content result) in
      let attachment_file_ids := map file_id (mr_attachments result) in
      let mail_content :=
        "Subject: " ++ subject email ++ nl
        ++ "Content: " ++ take 800 (content email) in
      let mail_content_s3_url :=
        match mail_content_file_id with
        | Some (String c id) => Some ("mongodb://gridfs/" ++ String c id)
        | _ => None
        end in
      let attachment_urls :=
        map (fun id => "mongodb://gridfs/" ++ id) attachment_file_ids in
      {| user_mail := sender_email email;
         fr_claim_id := claim_id email;
         fr_mail_content := mail_content;
         mail_content_s3_url := mail_content_s3_url;
         fr_attachment_count := length attachment_file_ids;
         attachment_s3_urls := nonempty_list attachment_urls;
         local_attachment_paths := nonempty_list local_paths;
         fulfillment_status := status;
         missing_items := nonempty_string missing;
         s3_upload_timestamp := Some (upload_timestamp result);
         mail_content_file_id := mail_content_file_id;
         attachment_file_ids := Some attachment_file_ids |}
  | _, _ =>
      let mail_content :=
        take 1000 ("Subject: " ++ subject email ++ nl
                   ++ "Content: " ++ content email) in
      {| user_mail := sender_email email;
         fr_claim_id := claim_id email;
         fr_mail_content := mail_content;
         mail_content_s3_url := None;
         fr_attachment_count := length (attachment_paths email);
         attachment_s3_urls := None;
         local_attachment_paths := nonempty_list local_paths;
         fulfillment_status := status;
         missing_items := nonempty_string missing;
         s3_upload_timestamp := None;
         mail_content_file_id := None;
         attachment_file_ids := None |}
  end.

(** [save_to_fulfillment_table]: the [fulfillment_id], or [None]. *)
Definition save_to_fulfillment_table (email : email_data)
  (status missing : string) (result : option mongodb_result)
  : M (option nat) :=
  let request := api_data email status missing result in
  t <- now ;;
  if fulfillment_api_up E t then
    reply <- add_fulfillment request ;;
    emit (AddFulfillment request (Response (fst reply) (snd reply))) ;;;
    if fst reply =? 200 then ret (snd reply) else ret None
  else
    emit (AddFulfillment request TransportError) ;;;
    ret None.

(** [mongodb_manager.upload_file] *)
Definition upload_file (name : string) : M (option archived_file) :=
  t <- now ;;
  emit (GridfsPut name (gridfs_put E t)) ;;;
  match gridfs_put E t with
  | Some (String c id) =>
      ret (Some {| file_id := String c id; filename := name |})
  | _ => ret None
  end.

(** The loop over the attachments of [upload_complete_email]. *)
Fixpoint upload_attachments (paths : list string)
  : M (list archived_file) :=
  match paths with
  | [] => ret []
  | attachment_path :: rest =>
      present <- get (fun w => in_list attachment_path (files w)) ;;
      att_result <-
        (if present then upload_file (basename attachment_path)
         else ret None) ;;
      others <- upload_attachments rest ;;
      match att_result with
      | Some a => ret (a :: others)
      | None => ret others
      end
  end.

(** [mongodb_manager.upload_complete_email]: every fallible step inside
    has its own handler, so a result is always returned. *)
Definition upload_complete_email (email : email_data)
  : M (option mongodb_result) :=
  stamp <- now ;;
  mail_content_result <- upload_file (claim_id email ++ "_mail_content.json") ;;
  attachments <- upload_attachments (attachment_paths email) ;;
  ret (Some {| upload_timestamp := stamp;
               mr_mail_content := mail_content_result;
               mr_attachments := attachments |}).

(** [upload_to_mongodb_for_completed_fulfillment] *)
Definition upload_to_mongodb_for_completed_fulfillment
  (email : email_data) : M (option mongodb_result) :=
  client <- get mongo_client ;;
  if client then upload_complete_email email
  else
    t <- now ;;
    emit (MongoConnect (mongo_connect E t)) ;;;
    match mongo_connect E t with
    | Connected =>
        set_mongo_client true ;;; upload_complete_email email
    | ServerUnreachable => set_mongo_client true ;;; ret None
    | ClientError => ret None
    end.

(** The loop of [cleanup_local_files_after_mongodb_upload] that deletes
    the attachment files. *)
Fixpoint remove_attachments (paths : list string) : M unit :=
  match paths with
  | [] => ret tt
  | attachment_path :: rest =>
      present <- get (fun w => path_exists w attachment_path) ;;
      (if present then
         t <- now ;;
         current <- get files ;;
         let removed :=
           os_remove E t attachment_path
           && in_list attachment_path current in
         emit (RemoveFile attachment_path removed) ;;;
         if removed
         then set_files (remove_path attachment_path current)
         else ret tt
       else ret tt) ;;;
      remove_attachments rest
  end.

(** [cleanup_local_files_after_mongodb_upload] *)
Definition cleanup_local_files_after_mongodb_upload (email : email_data)
  : M unit :=
  remove_attachments (attachment_paths email) ;;;
  match attachment_paths email with
  | first_attachment :: _ =>
      let claim_folder := dirname first_attachment in
      removable <-
        get (fun w => in_list claim_folder (dirs w)
                      && dir_is_empty w claim_folder) ;;
      if removable then
        t <- now ;;
        emit (RemoveDir claim_folder (os_remove E t claim_folder)) ;;;
        current <- get dirs ;;
        if os_remove E t claim_folder
        then set_dirs (remove_path claim_folder current)
        else ret tt
      else ret tt
  | [] => ret tt
  end.

(** The text handed to [parse_fulfillment_response] when the reply is
    true; [re.search] raises on a content that is not a [str]. *)
Definition parse_reply (reply : llm_content) (email : email_data)
  : option assessment :=
  match reply with
  | StrContent llm_response =>
      parse_fulfillment_response E llm_response email
  | OtherContent _ _ => None
  end.

Definition reply_truth (reply : llm_content) : bool :=
  match reply with
  | StrContent text => negb (String.eqb text "")
  | OtherContent _ truth => truth
  end.

(** The two branches of [process_email_fulfillment] on the terminal
    status. *)
Definition complete_claim (email : email_data) : M pyresult :=
  mongodb_result <- upload_to_mongodb_for_completed_fulfillment email ;;
  match mongodb_result with
  | Some _ =>
      success <- save_to_fulfillment_table email "completed" ""
                   mongodb_result ;;
      match success with
      | Some id =>
          cleanup_local_files_after_mongodb_upload email ;;; ret (RId id)
      | None => ret RNone
      end
  | None =>
      success <- save_to_fulfillment_table email "completed" "" None ;;
      match success with
      | Some id => ret (RId id)
      | None => ret RNone
      end
  end.

Definition pend_claim (email : email_data) (parsed_result : assessment)
  : M pyresult :=
  let missing_items := a_missing_items parsed_result in
  success <- save_to_fulfillment_table email "pending" missing_items None ;;
  match success with
  | Some _ =>
      email_sent <-
        send_mail_via_service (sender_email email)
          "Insurance Claim - Additional Information Required"
          (a_email_content parsed_result) ;;
      if email_sent then ret RTrue else ret RFalse
  | None => ret RNone
  end.

(** The first two steps of [process_email_fulfillment]: the assessment
    and its parsing; [None] on the two paths that return [False]. *)
Definition assess_and_parse (email : email_data) : M (option assessment) :=
  llm_response <- assess_fulfillment_with_llm email ;;
  match llm_response with
  | Some reply =>
      if reply_truth reply then ret (parse_reply reply email)
      else ret None
  | None => ret None
  end.

(** [process_email_fulfillment] *)
Definition process_email_fulfillment (email : email_data) : M pyresult :=
  parsed_result <- assess_and_parse email ;;
  match parsed_result with
  | Some parsed_result =>
      match a_status parsed_result with
      | COMPLETED => complete_claim email
      | PENDING => pend_claim email parsed_result
      end
  | None => ret RFalse
  end.

End WithEnvironment.

End Fulfillment.

(** ** The mail monitor: [mail_monitor.py] *)

Module Monitor.

Import Fulfillment.

Section WithEnvironment.

Variable E : environment.

(** [check_user_registration].  The message printed for a registered user
    reads [user_data.get('_id')] inside the [try]: a [user] entry that is
    not an object raises there and the sender is reported unregistered. *)
Definition check_user_registration (email_address : string)
  : M (bool * option pydict) :=
  t <- now ;;
  emit (DirectoryLookup email_address (directory_get E t email_address)) ;;;
  match directory_get E t email_address with
  | Response status_code body =>
      if status_code =? 200 then
        match body with
        | Some data =>
            match dj_status data with
            | Some status =>
                if String.eqb status "success" then
                  match dj_user data with
                  | UserAbsent => ret (true, Some [])
                  | UserObject fields => ret (true, Some fields)
                  | UserNotObject => ret (false, None)
                  end
                else ret (false, None)
            | None => ret (false, None)
            end
        | None => ret (false, None)
        end
      else ret (false, None)
  | TransportError => ret (false, None)
  end.

(** The subject and the body that [send_unregistered_user_email_via_service]
    builds before it calls the mail service: from the template, from the
    fallback template when the first is unreadable or blank, or the minimal
    text when both are; [None] when formatting the template raises. *)
Definition unregistered_user_email (to_email claim : string)
  : option (string * string) :=
  let email_template := load_prompt_file E "user_not_found_email.txt" in
  let email_template :=
    match email_template with
    | Some (String _ _) => email_template
    | _ => load_prompt_file E "user_not_found_fallback.txt"
    end in
  match email_template with
  | Some (String c rest) =>
      let lines := split_lines (String c rest) in
      let subject :=
        if startswith (nth 0 lines "") "Subject: "
        then remove_all "Subject: " (nth 0 lines "")
        else "Insurance Claim - Registration Required" in
      let content_start :=
        if (1 <? length lines) && String.eqb (nth 1 lines "x") ""
        then 2 else 1 in
      let email_content := join nl (skipn content_start lines) in
      match str_format E email_content
              [("claim_id", claim); ("user_email", to_email)] with
      | Some email_content => Some (subject, email_content)
      | None => None
      end
  | _ =>
      Some ("Insurance Claim - Registration Required",
            "Dear Customer," ++ nl ++ nl
            ++ "Your email " ++ to_email
            ++ " is not registered in our system." ++ nl ++ nl
            ++ "Claim Reference: " ++ claim ++ nl ++ nl
            ++ "Please contact customer service." ++ nl ++ nl
            ++ "Best regards," ++ nl
            ++ "Insurance Claims Team")
  end.

(** [send_unregistered_user_email_via_service]: the request to the mail
    service is made once the text is built; an exception before it (the
    formatting of the template) ends in the last handler, which returns
    [False]. *)
Definition send_unregistered_user_email_via_service
  (to_email claim : string) : M bool :=
  match unregistered_user_email to_email claim with
  | Some (subject, email_content) =>
      let mail_request :=
        {| mail_id := to_email; mail_subject := subject;
           mail_content := email_content |} in
      t <- now ;;
      emit (RegistrationNotice mail_request (mail_post E t mail_request)) ;;;
      match mail_post E t mail_request with
      | Response status_code _ => ret (status_code =? 200)
      | TransportError => ret false
      end
  | None =>
      (* except Exception *)
      ret false
  end.

(** [filter_email_with_llm] *)
Definition filter_email_with_llm (email : email_data) : M pydict :=
  t <- now ;;
  emit (ClassifierCall (email_id email) (llm_invoke E t)) ;;;
  ret (Classifier.filter_result E email (llm_invoke E t)).

(** How the body of the [try] of [process_email_queue] ends for one
    record: normally, counted or not in [processed_count], or with an
    exception. *)
Inductive flow : Type :=
| Handled (counted : bool)
| Raised.

(** The body of the [try] for the record just dequeued.  Every function it
    calls handles its own exceptions; an exception that reaches the handler
    of the loop all the same is an answer of the environment. *)
Definition process_record (email : email_data) : M flow :=
  t <- now ;;
  if record_fault E t then ret Raised
  else
    registration <- check_user_registration (sender_email email) ;;
    if negb (fst registration) then
      email_sent <-
        send_unregistered_user_email_via_service
          (sender_email email) (claim_id email) ;;
      (* continue *)
      ret (Handled email_sent)
    else
      process_email_fulfillment E email ;;;
      ret (Handled true).

(** The loop of [process_email_queue] over the records still queued;
    [processed_count] is its counter, handed back at the end.  Nothing the
    body calls touches the queue, so the records it will dequeue are the
    ones queued when it starts. *)
Fixpoint drain (pending : list email_data) (processed_count : nat)
  : M nat :=
  match pending with
  | [] => ret processed_count
  | email :: rest =>
      (* get_nowait *)
      set_queue rest ;;;
      outcome <- process_record email ;;
      match outcome with
      | Handled counted =>
          drain rest
            (if counted then S processed_count else processed_count)
      | Raised =>
          (* except Exception: break *)
          ret processed_count
      end
  end.

(** [process_email_queue] *)
Definition process_email_queue : M nat :=
  queued <- get email_queue ;;
  drain queued 0.

(** The clean-up of the attachments of a message that was filtered out:
    every failure is passed over. *)
Fixpoint discard_attachments (paths : list string) : M unit :=
  match paths with
  | [] => ret tt
  | path :: rest =>
      present <- get (fun w => path_exists w path) ;;
      (if present then
         t <- now ;;
         current <- get files ;;
         let removed := os_remove E t path && in_list path current in
         emit (RemoveFile path removed) ;;;
         if removed
         then set_files (remove_path path current)
         else ret tt
       else ret tt) ;;;
      discard_attachments rest
  end.

Definition discard_claim_folder (paths : list string) : M unit :=
  match paths with
  | first_attachment :: _ =>
      let claim_folder := dirname first_attachment in
      removable <-
        get (fun w => in_list claim_folder (dirs w)
                      && dir_is_empty w claim_folder) ;;
      if removable then
        t <- now ;;
        emit (RemoveDir claim_folder (os_remove E t claim_folder)) ;;;
        current <- get dirs ;;
        if os_remove E t claim_folder
        then set_dirs (remove_path claim_folder current)
        else ret tt
      else ret tt
  | [] => ret tt
  end.

(** [llm_result and llm_result.get('is_insurance', False)] *)
Definition is_insurance (llm_result : pydict) : bool :=
  match llm_result with
  | [] => false
  | _ =>
      match dict_get "is_insurance" llm_result with
      | Some v => truthy v
      | None => false
      end
  end.

Definition with_filter_result (email : email_data) (llm_result : pydict)
  : email_data :=
  {| email_id := email_id email;
     sender_email := sender_email email;
     subject := subject email;
     content := content email;
     claim_id := claim_id email;
     attachment_count := attachment_count email;
     attachment_paths := attachment_paths email;
     llm_filter_result := Some llm_result |}.

(** What one turn of the loop of [fetch_new_mails_to_queue] does with
    the message it fetched: whether it was added to the queue. *)
Definition ingest_message (fetched : option (email_data * string))
  : M bool :=
  match fetched with
  | None =>
      (* status is not OK, or the handler of the turn: continue *)
      ret false
  | Some (email, claim_folder) =>
      (* process_email_attachments wrote the folder and the files *)
      ds <- get dirs ;;
      set_dirs (if in_list claim_folder ds then ds
                else (ds ++ [claim_folder])%list) ;;;
      fs <- get files ;;
      set_files (fs ++ attachment_paths email)%list ;;;
      llm_result <- filter_email_with_llm email ;;
      if is_insurance llm_result then
        queued <- get email_queue ;;
        set_queue (queued ++ [with_filter_result email llm_result])%list ;;;
        ret true
      else
        discard_attachments (attachment_paths email) ;;;
        discard_claim_folder (attachment_paths email) ;;;
        ret false
  end.

(** One turn of the loop, for message [i]. *)
Definition fetch_one (i : nat) : M bool :=
  t <- now ;;
  emit (FetchMessage i
          (match imap_ingest E t i with Some _ => true | None => false end))
  ;;;
  ingest_message (imap_ingest E t i).

(** The loop over the sequence numbers, counting [emails_added]. *)
Fixpoint fetch_range (ids : list nat) (emails_added : nat) : M nat :=
  match ids with
  | [] => ret emails_added
  | i :: rest =>
      added <- fetch_one i ;;
      fetch_range rest (if added then S emails_added else emails_added)
  end.

(** [fetch_new_mails_to_queue]: [range(start_index, end_index + 1)]. *)
Definition fetch_new_mails_to_queue (stored_count current_count : nat)
  : M nat :=
  fetch_range (seq (stored_count + 1) (current_count - stored_count)) 0.

(** [get_current_mail_count] *)
Definition get_current_mail_count : M nat :=
  t <- now ;;
  match imap_count E t with
  | Some mail_count => ret mail_count
  | None => ret 0
  end.

(** [get_stored_mail_details]: the latest tracking document. *)
Definition get_stored_mail_details : M (nat * option nat) :=
  t <- now ;;
  tracking <- get mail_tracking ;;
  if tracking_find E t then
    match rev tracking with
    | result :: _ =>
        ret (mail_count result, Some (last_connection_time result))
    | [] => ret (0, None)
    end
  else ret (0, None).

(** [update_mail_details] *)
Definition update_mail_details (count : nat) : M bool :=
  t <- now ;;
  emit (CursorInsert count (tracking_insert E t)) ;;;
  if tracking_insert E t then
    tracking <- get mail_tracking ;;
    set_mail_tracking
      (tracking ++ [{| mail_count := count;
                       last_connection_time := t |}])%list ;;;
    ret true
  else ret false.

(** One turn of the [while True] loop of [monitor_mails]. *)
Definition poll_cycle : M unit :=
  current_mail_count <- get_current_mail_count ;;
  stored <- get_stored_mail_details ;;
  let stored_mail_count := fst stored in
  match snd stored with
  | None =>
      update_mail_details current_mail_count ;;; ret tt
  | Some _ =>
      if stored_mail_count <? current_mail_count then
        emails_added <-
          fetch_new_mails_to_queue stored_mail_count current_mail_count ;;
        update_mail_details current_mail_count ;;;
        if 0 <? emails_added
        then process_email_queue ;;; ret tt
        else ret tt
      else ret tt
  end.

(** The first [n] turns of [monitor_mails] once both connections are
    made. *)
Fixpoint monitor_mails (n : nat) : M unit :=
  match n with
  | O => ret tt
  | S k => poll_cycle ;;; monitor_mails k
  end.

End WithEnvironment.

End Monitor.

(** ** Vocabulary of the properties *)

(** Why no structured result comes out of a reply of the classifier
    backend: the span between the first [{] and the last [}] is not JSON,
    or there is no such span. *)
Inductive parse_failure : Type :=
| MalformedJson
| NoSpan.

Definition parse_failure_of (E : environment) (response_content : string)
  : option parse_failure :=
  match Classifier.json_span response_content with
  | Some json_str =>
      match json_loads E json_str with
      | Some _ => None
      | None => Some MalformedJson
      end
  | None => Some NoSpan
  end.

(** Two distinct keywords of the insurance vocabulary occur in the subject
    or the body. *)
Definition two_keywords_match (email : email_data) : Prop :=
  exists k1 k2 : string,
    k1 <> k2
    /\ In k1 Classifier.insurance_keywords
    /\ In k2 Classifier.insurance_keywords
    /\ Classifier.keyword_matches email k1 = true
    /\ Classifier.keyword_matches email k2 = true.

(** The directory reply confirms the sender: status 200, a JSON object
    whose [status] is [success] and whose [user], when present, is an
    object. *)
Definition confirms (reply : http (option directory_json)) : bool :=
  match reply with
  | Response status_code (Some data) =>
      (status_code =? 200)
      && match dj_status data, dj_user data with
         | Some status, UserAbsent => String.eqb status "success"
         | Some status, UserObject _ => String.eqb status "success"
         | _, _ => false
         end
  | _ => false
  end.

(** The mail service answered 200. *)
Definition mail_accepted (reply : http unit) : bool :=
  match reply with
  | Response status_code _ => status_code =? 200
  | TransportError => false
  end.

(** What the fulfillment store answers to a record sent for [address] at
    time [t]: the id under which the record is stored, or [None] when the
    service is out of reach, refuses the address or fails to insert. *)
Definition store_answer (E : environment) (address : string) (t : nat)
  : option nat :=
  if fulfillment_api_up E t && email_str_valid E address
  then db_insert_one E (S t) else None.

(** A stored record without archive references. *)
Definition no_archive_refs (doc : fulfillment_doc) : Prop :=
  doc_mail_content_file_id doc = None
  /\ doc_attachment_file_ids doc = []
  /\ doc_mail_content_s3_url doc = None
  /\ doc_attachment_s3_urls doc = None
  /\ doc_s3_upload_timestamp doc = None.

(** The store gained exactly one record, for this email and with this
    status. *)
Definition stored (status : string) (email : email_data)
  (before after : world) : Prop :=
  exists doc,
    fulfillment after = (fulfillment before ++ [doc])%list
    /\ doc_claim_id doc = claim_id email
    /\ doc_user_mail doc = sender_email email
    /\ doc_fulfillment_status doc = status.

(** The events logged between two worlds. *)
Definition logged (before after : world) (events : list event) : Prop :=
  log after = (log before ++ events)%list.

(** The mail service accepted a notification for this address. *)
Definition delivered (address : string) (events : list event) : Prop :=
  exists request body,
    In (SendMail request (Response 200 body)) events
    /\ mail_id request = address.

(** The sequence numbers of the messages fetched, in order. *)
Definition fetched_ids (events : list event) : list nat :=
  flat_map (fun e => match e with
                     | FetchMessage i _ => [i]
                     | _ => []
                     end) events.

(** Events of the handling of one fetched message. *)
Definition ingest_event (e : event) : bool :=
  match e with
  | ClassifierCall _ _ | RemoveFile _ _ | RemoveDir _ _ => true
  | _ => false
  end.

(** Events of the fetch phase of a poll cycle. *)
Definition fetch_event (e : event) : bool :=
  match e with
  | FetchMessage _ _ => true
  | _ => ingest_event e
  end.

(** Events of the processing of the queue. *)
Definition queue_event (e : event) : bool :=
  match e with
  | DirectoryLookup _ _ | RegistrationNotice _ _ | AssessmentCall _ _
  | AddFulfillment _ _ | SendMail _ _ | MongoConnect _ | GridfsPut _ _
  | RemoveFile _ _ | RemoveDir _ _ => true
  | _ => false
  end.

(** What a computation is allowed to do: the events it may log, and
    whether it may change the queue and the tracking collection. *)
Record footprint : Type := {
  may_emit : event -> bool;
  may_queue : bool;
  may_track : bool
}.

Definition evolves (fp : footprint) (w w' : world) : Prop :=
  (may_queue fp = false -> email_queue w' = email_queue w)
  /\ (may_track fp = false -> mail_tracking w' = mail_tracking w)
  /\ exists events,
       log w' = (log w ++ events)%list
       /\ forallb (may_emit fp) events = true.

Definition keeps {A : Type} (fp : footprint) (m : M A) : Prop :=
  forall w, evolves fp w (snd (m w)).

Definition ingest_fp : footprint :=
  {| may_emit := ingest_event; may_queue := true; may_track := false |}.

Definition record_fp : footprint :=
  {| may_emit := queue_event; may_queue := false; may_track := false |}.

Definition drain_fp : footprint :=
  {| may_emit := queue_event; may_queue := true; may_track := false |}.

(** ** Concrete environments and inputs *)

(** An environment in which every collaborator is out of reach, with the
    answers of the classifier backend, of the directory and of the mail
    service left open. *)
Definition scenario (llm : nat -> llm_outcome)
  (directory : nat -> string -> http (option directory_json))
  (mail : nat -> mail_request -> http unit)
  (insert : nat -> option nat) (fault : nat -> bool)
  (ingest : nat -> nat -> option (email_data * string))
  (inbox : nat -> option nat) : environment :=
  {| json_loads := fun _ => None;
     str_format := fun template _ => Some template;
     prompt_file := fun name =>
       if String.eqb name "fulfillment_system_prompt.txt"
       then Some "You assess insurance claims." else None;
     llm_invoke := llm;
     directory_get := directory;
     mail_post := mail;
     fulfillment_api_up := fun _ => true;
     email_str_valid := fun _ => true;
     db_insert_one := insert;
     mongo_connect := fun _ => ClientError;
     gridfs_put := fun _ => None;
     os_remove := fun _ _ => true;
     imap_count := inbox;
     imap_ingest := ingest;
     record_fault := fault;
     tracking_find := fun _ => true;
     tracking_insert := fun _ => true |}.

Definition offline : environment :=
  scenario (fun _ => LLMRaises) (fun _ _ => TransportError)
    (fun _ _ => TransportError) (fun _ => None) (fun _ => false)
    (fun _ _ => None) (fun _ => None).

Definition sample_email (sender body : string) (attachments : list string)
  : email_data :=
  {| email_id := "11";
     sender_email := sender;
     subject := "Car accident claim";
     content := body;
     claim_id := "CLAIM_0A1B2C3D";
     attachment_count := length attachments;
     attachment_paths := attachments;
     llm_filter_result := None |}.

Definition photo : string := "attachments/CLAIM_0A1B2C3D/1700000000000_photo.jpg".

Definition empty_world : world :=
  {| clock := 0; email_queue := []; mail_tracking := [];
     fulfillment := []; files := []; dirs := [];
     mongo_client := false; log := [] |}.

(** The directory does not know the sender. *)
Definition unknown_sender : environment :=
  scenario (fun _ => LLMRaises) (fun _ _ => Response 404 None)
    (fun _ _ => TransportError) (fun _ => None) (fun _ => false)
    (fun _ _ => None) (fun _ => None).

(** The directory does not know the sender and the mail service takes
    every message. *)
Definition unknown_sender_notified : environment :=
  scenario (fun _ => LLMRaises) (fun _ _ => Response 404 None)
    (fun _ _ => Response 200 tt) (fun _ => None) (fun _ => false)
    (fun _ _ => None) (fun _ => None).

(** The directory does not know the sender, and the template of the
    registration notice names a field that the code does not fill in, so
    that formatting it raises. *)
Definition stray_field : environment :=
  {| json_loads := fun _ => None;
     str_format := fun template _ =>
       if contains "{name}" template then None else Some template;
     prompt_file := fun name =>
       if String.eqb name "user_not_found_email.txt"
       then Some ("Subject: Registration required" ++ nl ++ nl
                  ++ "Dear {name}, your claim {claim_id} is on hold.")
       else None;
     llm_invoke := fun _ => LLMRaises;
     directory_get := fun _ _ => Response 404 None;
     mail_post := fun _ _ => Response 200 tt;
     fulfillment_api_up := fun _ => true;
     email_str_valid := fun _ => true;
     db_insert_one := fun _ => Some 7;
     mongo_connect := fun _ => ClientError;
     gridfs_put := fun _ => None;
     os_remove := fun _ _ => true;
     imap_count := fun _ => None;
     imap_ingest := fun _ _ => None;
     record_fault := fun _ => false;
     tracking_find := fun _ => true;
     tracking_insert := fun _ => true |}.

(** An exception interrupts the processing of the first record. *)
Definition first_record_faults : environment :=
  scenario (fun _ => LLMRaises) (fun _ _ => Response 404 None)
    (fun _ _ => TransportError) (fun _ => None) (fun t => t =? 0)
    (fun _ _ => None) (fun _ => None).

(** The assessment answers PENDING, the store accepts the record and the
    mail service refuses the notification. *)
Definition mail_service_down : environment :=
  scenario
    (fun _ => LLMReply (StrContent
       ("FULFILLMENT_STATUS: PENDING" ++ nl ++ "MISSING_ITEMS:" ++ nl
        ++ "- Specific claim amount not provided")))
    (fun _ _ => TransportError) (fun _ _ => Response 500 tt)
    (fun _ => Some 7) (fun _ => false) (fun _ _ => None) (fun _ => None).

(** The assessment answers COMPLETED, the archive cannot be reached and
    the store accepts the record. *)
Definition archive_down : environment :=
  scenario (fun _ => LLMReply (StrContent "FULFILLMENT_STATUS: COMPLETED"))
    (fun _ _ => TransportError) (fun _ _ => Response 200 tt)
    (fun _ => Some 7) (fun _ => false) (fun _ _ => None) (fun _ => None).

(** The inbox holds eleven messages and the fetch of every message
    fails. *)
Definition fetch_fails : environment :=
  scenario (fun _ => LLMRaises) (fun _ _ => TransportError)
    (fun _ _ => TransportError) (fun _ => None) (fun _ => false)
    (fun _ _ => None) (fun _ => Some 11).

Definition claimant : email_data :=
  sample_email "customer@example.com" "My car was damaged, see photo" [photo].

Definition second_claimant : email_data :=
  sample_email "other@example.com" "Water damage in the kitchen" [].

(** The world after ten messages were seen. *)
Definition ten_seen : world :=
  {| clock := 0; email_queue := [];
     mail_tracking := [{| mail_count := 10; last_connection_time := 0 |}];
     fulfillment := []; files := []; dirs := [];
     mongo_client := false; log := [] |}.

Definition two_queued : world :=
  {| clock := 0; email_queue := [claimant; second_claimant];
     mail_tracking := []; fulfillment := [];
     files := [photo]; dirs := ["attachments/CLAIM_0A1B2C3D"];
     mongo_client := false; log := [] |}.

Definition one_claim : world :=
  {| clock := 0; email_queue := [];
     mail_tracking := []; fulfillment := [];
     files := [photo]; dirs := ["attachments/CLAIM_0A1B2C3D"];
     mongo_client := false; log := [] |}.

(** The assessment a run of [assess_and_parse] ends with, and a default
    for the runs that end without one. *)
Definition assessed (E : environment) (email : email_data) (w : world)
  : assessment :=
  match fst (Fulfillment.assess_and_parse E email w) with
  | Some a => a
  | None => {| a_status := PENDING; a_missing_items := "";
               a_satisfied_items := []; a_email_content := "" |}
  end.


(** ** Vocabulary of the further properties *)

(** The first and the last character of a text. *)
Definition first_char (s : string) : option ascii := String.get 0 s.

Definition last_char (s : string) : option ascii :=
  match String.length s with
  | O => None
  | S n => String.get n s
  end.

(** The character occurs in the text. *)
Definition occurs (c : ascii) (s : string) : Prop :=
  exists i, String.get i s = Some c.

(** The line as the formatter of the missing items leaves it: with a
    bullet in front when it has none. *)
Definition bulleted (line : string) : string :=
  if startswith line "-" then line else "- " ++ line.

(** The record with its subject and its body in lower case. *)
Definition lowered (email : email_data) : email_data :=
  {| email_id := email_id email;
     sender_email := sender_email email;
     subject := lower (subject email);
     content := lower (content email);
     claim_id := claim_id email;
     attachment_count := attachment_count email;
     attachment_paths := attachment_paths email;
     llm_filter_result := llm_filter_result email |}.

(** The addresses looked up in the directory, in order. *)
Definition lookups (events : list event) : list string :=
  flat_map (fun e => match e with
                     | DirectoryLookup address _ => [address]
                     | _ => []
                     end) events.

(** Events of the archive upload, of the storing of a record and of the
    local clean-up. *)
Definition completion_event (e : event) : bool :=
  match e with
  | AddFulfillment _ _ | MongoConnect _ | GridfsPut _ _
  | RemoveFile _ _ | RemoveDir _ _ => true
  | _ => false
  end.

(** Events of the fulfillment of one claim. *)
Definition fulfillment_event (e : event) : bool :=
  match e with
  | AssessmentCall _ _ | SendMail _ _ => true
  | _ => completion_event e
  end.

(** Events of the handling of a record once the directory has answered. *)
Definition handling_event (e : event) : bool :=
  match e with
  | RegistrationNotice _ _ => true
  | _ => fulfillment_event e
  end.

Definition completion_fp : footprint :=
  {| may_emit := completion_event; may_queue := false; may_track := false |}.

Definition fulfillment_fp : footprint :=
  {| may_emit := fulfillment_event; may_queue := false; may_track := false |}.

Definition handling_fp : footprint :=
  {| may_emit := handling_event; may_queue := false; may_track := false |}.

(** The clean-up of a rejected message: it may log, and leaves the queue
    alone. *)
Definition discard_fp : footprint :=
  {| may_emit := ingest_event; may_queue := false; may_track := false |}.

(** The directory knows every sender. *)
Definition known_sender : environment :=
  scenario (fun _ => LLMRaises)
    (fun _ _ => Response 200
                  (Some {| dj_status := Some "success";
                           dj_user := UserObject
                                        [("policy_type", PyStr "auto")] |}))
    (fun _ _ => TransportError) (fun _ => None) (fun _ => false)
    (fun _ _ => None) (fun _ => None).

(** The assessment answers PENDING and the template of the notification
    cannot be formatted. *)
Definition broken_template : environment :=
  {| json_loads := fun _ => None;
     str_format := fun _ _ => None;
     prompt_file := fun name =>
       if String.eqb name "fulfillment_system_prompt.txt"
       then Some "You assess insurance claims."
       else if String.eqb name "fulfillment_pending_email.txt"
       then Some "Subject: More information needed"
       else None;
     llm_invoke := fun _ =>
       LLMReply (StrContent
         ("FULFILLMENT_STATUS: PENDING" ++ nl ++ "MISSING_ITEMS:" ++ nl
          ++ "- Specific claim amount not provided"));
     directory_get := fun _ _ => TransportError;
     mail_post := fun _ _ => Response 200 tt;
     fulfillment_api_up := fun _ => true;
     email_str_valid := fun _ => true;
     db_insert_one := fun _ => Some 7;
     mongo_connect := fun _ => Connected;
     gridfs_put := fun _ => None;
     os_remove := fun _ _ => true;
     imap_count := fun _ => None;
     imap_ingest := fun _ _ => None;
     record_fault := fun _ => false;
     tracking_find := fun _ => true;
     tracking_insert := fun _ => true |}.

(** The prompt of the assessment is missing. *)
Definition no_prompts : environment :=
  {| json_loads := fun _ => None;
     str_format := fun template _ => Some template;
     prompt_file := fun _ => None;
     llm_invoke := fun _ => LLMReply (StrContent "FULFILLMENT_STATUS: COMPLETED");
     directory_get := fun _ _ => TransportError;
     mail_post := fun _ _ => Response 200 tt;
     fulfillment_api_up := fun _ => true;
     email_str_valid := fun _ => true;
     db_insert_one := fun _ => Some 7;
     mongo_connect := fun _ => Connected;
     gridfs_put := fun _ => None;
     os_remove := fun _ _ => true;
     imap_count := fun _ => None;
     imap_ingest := fun _ _ => None;
     record_fault := fun _ => false;
     tracking_find := fun _ => true;
     tracking_insert := fun _ => true |}.

(** The store refuses every record. *)
Definition store_down : environment :=
  scenario (fun _ => LLMReply (StrContent "FULFILLMENT_STATUS: COMPLETED"))
    (fun _ _ => TransportError) (fun _ _ => Response 200 tt)
    (fun _ => None) (fun _ => false) (fun _ _ => None) (fun _ => None).

(** A world in which the client of the archive is set. *)
Definition client_set : world :=
  {| clock := 0; email_queue := [];
     mail_tracking := []; fulfillment := [];
     files := [photo; "notes.txt"]; dirs := ["attachments/CLAIM_0A1B2C3D"];
     mongo_client := true; log := [] |}.

(** The local files, the local directories and the fulfillment collection
    are the same in two worlds. *)
Definition same_disk (w w' : world) : Prop :=
  files w' = files w /\ dirs w' = dirs w /\ fulfillment w' = fulfillment w.

(** Between two worlds nothing was created, the only files removed are
    among [paths], the only directories removed are among [folders], and
    the fulfillment collection is the same. *)
Definition only_removes (paths folders : list string) (w w' : world)
  : Prop :=
  fulfillment w' = fulfillment w
  /\ (forall p, In p (files w') -> In p (files w))
  /\ (forall p, In p (files w) -> ~ In p paths -> In p (files w'))
  /\ (forall d, In d (dirs w') -> In d (dirs w))
  /\ (forall d, In d (dirs w) -> ~ In d folders -> In d (dirs w')).

(** A computation keeps a relation between the world it starts in and the
    world it ends in. *)
Definition preserves {A : Type} (R : world -> world -> Prop) (m : M A)
  : Prop :=
  forall w, R w (snd (m w)).

(** The folder that [cleanup_local_files_after_mongodb_upload] may
    remove. *)
Definition claim_folders (email : email_data) : list string :=
  match attachment_paths email with
  | first_attachment :: _ => [Fulfillment.dirname first_attachment]
  | [] => []
  end.

(** The count of the latest tracking document, 0 when there is none: what
    [get_stored_mail_details] reads when the read succeeds. *)
Definition stored_count (w : world) : nat :=
  match rev (mail_tracking w) with
  | result :: _ => mail_count result
  | [] => 0
  end.

(** What [get_current_mail_count] returns at a given time. *)
Definition inbox_count (E : environment) (t : nat) : nat :=
  match imap_count E t with
  | Some mail_count => mail_count
  | None => 0
  end.

(** A queued record carries a classification that accepted it. *)
Definition accepted (email : email_data) : Prop :=
  exists llm_result,
    llm_filter_result email = Some llm_result
    /\ Monitor.is_insurance llm_result = true.

(** The result a run of the parser ends with, and a default for the runs
    that end without one. *)
Definition parsed (E : environment) (llm_response : string)
  (email : email_data) : assessment :=
  match Assessment.parse_fulfillment_response E llm_response email with
  | Some a => a
  | None => {| a_status := PENDING; a_missing_items := "";
               a_satisfied_items := []; a_email_content := "" |}
  end.

(** The result an archive upload ends with, and a default for the uploads
    that end without one. *)
Definition archived (E : environment) (email : email_data) (w : world)
  : mongodb_result :=
  match fst (Fulfillment.upload_to_mongodb_for_completed_fulfillment
               E email w) with
  | Some r => r
  | None => {| upload_timestamp := 0; mr_mail_content := None;
               mr_attachments := [] |}
  end.

Definition pending_reply : string :=
  "FULFILLMENT_STATUS: PENDING" ++ nl ++ "MISSING_ITEMS:" ++ nl
  ++ "- Specific claim amount not provided".

(** * Properties *)

(** ** Text lemmas *)

Lemma any_in_false_iff (keywords : list string) (text : string) :
  any_in keywords text = false <->
  forall k, In k keywords -> contains k text = false.
Proof.
  unfold any_in. induction keywords as [|k ks IH]; simpl.
  - split; [intros _ k []|reflexivity].
  - rewrite orb_false_iff, IH. split.
    + intros [Hk Hks] k' [<-|Hin]; auto.
    + intros H. split; [apply H; now left|intros k' Hin; apply H; now right].
Qed.

Lemma filter_two_distinct {A : Type} (p : A -> bool) (l : list A) :
  NoDup l ->
  (2 <= length (filter p l) <->
   exists a b, a <> b /\ In a l /\ In b l /\ p a = true /\ p b = true).
Proof.
  intros Hnd. split.
  - intros Hlen.
    assert (Hf : NoDup (filter p l)) by now apply NoDup_filter.
    destruct (filter p l) as [|a [|b rest]] eqn:Heq; simpl in Hlen; try lia.
    assert (Ha : In a (filter p l)) by (rewrite Heq; now left).
    assert (Hb : In b (filter p l)) by (rewrite Heq; right; now left).
    apply filter_In in Ha, Hb. destruct Ha as [Ha Hpa], Hb as [Hb Hpb].
    exists a, b. repeat split; auto.
    inversion Hf as [|? ? Hnotin _]; subst.
    intros ->. apply Hnotin. now left.
  - intros (a & b & Hab & Ha & Hb & Hpa & Hpb).
    assert (Hincl : incl [a; b] (filter p l)).
    { intros x [<-|[<-|[]]]; apply filter_In; auto. }
    assert (Hnd2 : NoDup [a; b]).
    { constructor; [intros [Heq|[]]; now apply Hab|].
      constructor; [intros []|constructor]. }
    apply (NoDup_incl_length Hnd2) in Hincl. exact Hincl.
Qed.

Lemma insurance_keywords_nodup : NoDup Classifier.insurance_keywords.
Proof.
  unfold Classifier.insurance_keywords.
  repeat (constructor; [simpl; intuition discriminate|]).
  constructor.
Qed.

(** ** The assessment *)

Section AssessmentProperties.

Import Assessment.

Variable E : environment.


Lemma settle_status_of_parse (llm_response : string) (email : email_data)
  (a : assessment) :
  parse_fulfillment_response E llm_response email = Some a ->
  a_status a = fst (fst (settle llm_response email)).
Proof.
  unfold parse_fulfillment_response.
  destruct (settle llm_response email) as [[st m] s]; simpl.
  destruct st.
  - intros [= <-]. reflexivity.
  - destruct (pending_email_content E s m); [|discriminate].
    intros [= <-]. reflexivity.
Qed.

Lemma parse_completed (llm_response : string) (email : email_data) :
  fst (fst (settle llm_response email)) = COMPLETED ->
  exists a, parse_fulfillment_response E llm_response email = Some a
            /\ a_status a = COMPLETED.
Proof.
  unfold parse_fulfillment_response.
  destruct (settle llm_response email) as [[st m] s]; simpl.
  intros ->. eexists. split; reflexivity.
Qed.

(** C1. Failsafe override: whenever the satisfied items computed from the
    email and the extracted missing-items text number at least four, and
    that text is empty or the default placeholder, the parser returns a
    result whose status is COMPLETED, whatever status the reply states. *)
Theorem failsafe_override (llm_response : string) (email : email_data) :
  4 <= length (identify_satisfied_requirements email
                 (extract_missing_items llm_response)) ->
  extract_missing_items llm_response = ""
  \/ extract_missing_items llm_response = default_missing ->
  exists a, parse_fulfillment_response E llm_response email = Some a
            /\ a_status a = COMPLETED.
Proof.
  intros Hlen Hmissing. apply parse_completed.
  unfold settle. destruct (search status_at llm_response) as [[|]|];
    try reflexivity.
  all: apply Nat.leb_le in Hlen; rewrite Hlen;
    destruct Hmissing as [-> | ->]; reflexivity.
Qed.

(** C2, as the code has it.  The claim-amount item is among the satisfied
    items exactly when no amount-related keyword occurs in the lowered
    missing-items text; the body of the email plays no part in the list. *)
Theorem amount_item_follows_missing_text
  (email : email_data) (missing : string) :
  (In amount_item (identify_satisfied_requirements email missing)
   <-> any_in amount_keywords (lower missing) = false)
  /\ (forall other : email_data,
        attachment_count other = attachment_count email ->
        identify_satisfied_requirements other missing
        = identify_satisfied_requirements email missing).
Proof.
  split.
  - unfold identify_satisfied_requirements.
    destruct (any_in reason_keywords (lower missing));
      destruct (any_in amount_keywords (lower missing));
      destruct (0 <? attachment_count email);
      destruct (any_in proof_keywords (lower missing));
      cbn [negb app]; split; intros H;
      try reflexivity; try discriminate H;
      try (simpl; tauto);
      exfalso; simpl in H;
      repeat (destruct H as [H|H]; [discriminate H|]); exact H.
  - intros other Hcount. unfold identify_satisfied_requirements.
    now rewrite Hcount.
Qed.


End AssessmentProperties.

Lemma failsafe_override_witness :
  exists a,
    Assessment.parse_fulfillment_response offline
      "FULFILLMENT_STATUS: PENDING" (sample_email "a@b.c" "see photo" [photo])
    = Some a
    /\ a_status a = COMPLETED.
Proof.
  apply (failsafe_override offline).
  - vm_compute. apply le_n.
  - right. reflexivity.
Defined.

(** C2, as stated, fails: each of the three bodies of the specification
    carries a monetary pattern, and with a missing-items text that names the
    amount none of them gets the claim-amount item. *)
Lemma amount_detection_counterexample :
  let missing := "- Specific claim amount not provided" in
  forallb
    (fun body =>
       Assessment.has_monetary_value (sample_email "a@b.c" body [])
       && negb (Fulfillment.in_list Assessment.amount_item
                  (Assessment.identify_satisfied_requirements
                     (sample_email "a@b.c" body []) missing)))
    ["Total: 2,500"; "$2500"; "Rs. 25,000"] = true.
Proof. vm_compute. reflexivity. Qed.

Lemma amount_item_follows_missing_text_witness :
  Assessment.identify_satisfied_requirements
    (sample_email "a@b.c" "$2500" []) "- amount"
  = Assessment.identify_satisfied_requirements
      (sample_email "a@b.c" "no figure" []) "- amount".
Proof.
  exact (proj2 (amount_item_follows_missing_text
                  (sample_email "a@b.c" "no figure" []) "- amount")
               (sample_email "a@b.c" "$2500" []) eq_refl).
Defined.



(** ** The classifier *)

Section ClassifierProperties.

Import Classifier.

Variable E : environment.

Lemma fallback_check_well_formed (email : email_data) :
  well_formed (_fallback_insurance_check email) = true.
Proof. reflexivity. Qed.

Lemma fallback_check_relevance (email : email_data) :
  dict_get "is_insurance" (_fallback_insurance_check email)
  = Some (PyBool true)
  <-> two_keywords_match email.
Proof.
  unfold two_keywords_match.
  rewrite <- (filter_two_distinct (keyword_matches email)
                insurance_keywords insurance_keywords_nodup).
  change (dict_get "is_insurance" (_fallback_insurance_check email))
    with (Some (PyBool (2 <=? keyword_count email))).
  unfold keyword_count. split.
  - intros [= H]. now apply Nat.leb_le.
  - intros H. apply Nat.leb_le in H. now rewrite H.
Qed.

(** C5, as the code has it.  When the span between the first [{] and the
    last [}] is not JSON, the classifier returns the keyword count over
    subject and body: relevant exactly when two distinct keywords of the
    fixed vocabulary match, confidence 30.  When no span can be located it
    returns instead the scan of the reply text for true, yes, insurance or
    claim, with confidence 50. *)
Theorem parse_failure_fallbacks
  (email : email_data) (response_content : string) (k : parse_failure) :
  parse_failure_of E response_content = Some k ->
  let result :=
    filter_result E email (LLMReply (StrContent response_content)) in
  match k with
  | MalformedJson =>
      result = _fallback_insurance_check email
      /\ dict_get "confidence" result = Some (PyInt 30)
      /\ (dict_get "is_insurance" result = Some (PyBool true)
          <-> two_keywords_match email)
  | NoSpan =>
      result = _parse_llm_response_fallback response_content
      /\ dict_get "confidence" result = Some (PyInt 50)
      /\ dict_get "is_insurance" result
         = Some (PyBool (any_in ["true"; "yes"; "insurance"; "claim"]
                           (lower response_content)))
  end.
Proof.
  unfold parse_failure_of, filter_result.
  destruct (json_span response_content) as [json_str|].
  - destruct (json_loads E json_str); [discriminate|].
    intros [= <-]. cbv zeta.
    split; [reflexivity|]. split; [reflexivity|].
    apply fallback_check_relevance.
  - intros [= <-]. cbv zeta.
    split; [reflexivity|]. split; reflexivity.
Qed.

(** C6. Classification fail-open: when the call to the backend raises,
    [filter_email_with_llm] still returns, and what it returns is the
    keyword fallback computed from the email, a well-formed result with its
    four fields. *)
Theorem classification_fail_open (email : email_data) (w : world) :
  llm_invoke E (clock w) = LLMRaises ->
  let result := fst (Monitor.filter_email_with_llm E email w) in
  result = _fallback_insurance_check email
  /\ well_formed result = true
  /\ (exists b n r c,
        dict_get "is_insurance" result = Some (PyBool b)
        /\ dict_get "confidence" result = Some (PyInt n)
        /\ dict_get "reasoning" result = Some (PyStr r)
        /\ dict_get "category" result = Some (PyStr c)).
Proof.
  intros Hraise result.
  assert (Hres : result = _fallback_insurance_check email).
  { unfold result, Monitor.filter_email_with_llm, bind, now, emit, ret.
    simpl. now rewrite Hraise. }
  rewrite Hres. split; [reflexivity|]. split; [reflexivity|].
  do 4 eexists. repeat split; reflexivity.
Qed.

End ClassifierProperties.

(** C5, as stated, fails: a reply without braces yields no structured
    result, and the classifier answers with confidence 50 and "not
    relevant" for an email in which two keywords of the vocabulary match. *)
Lemma no_span_counterexample :
  let email := sample_email "a@b.c" "my insurance policy" [] in
  let result :=
    Classifier.filter_result offline email (LLMReply (StrContent "no")) in
  parse_failure_of offline "no" = Some NoSpan
  /\ dict_get "confidence" result = Some (PyInt 50)
  /\ dict_get "is_insurance" result = Some (PyBool false)
  /\ dict_get "is_insurance" (Classifier._fallback_insurance_check email)
     = Some (PyBool true).
Proof. repeat split; vm_compute; reflexivity. Qed.

Lemma parse_failure_fallbacks_witness :
  dict_get "confidence"
    (Classifier.filter_result offline
       (sample_email "a@b.c" "my insurance policy" [])
       (LLMReply (StrContent "{oops}")))
  = Some (PyInt 30).
Proof.
  exact (proj1 (proj2 (parse_failure_fallbacks offline
                         (sample_email "a@b.c" "my insurance policy" [])
                         "{oops}" MalformedJson eq_refl))).
Defined.

Lemma classification_fail_open_witness :
  Classifier.well_formed
    (fst (Monitor.filter_email_with_llm offline
            (sample_email "a@b.c" "my insurance policy" []) empty_world))
  = true.
Proof.
  exact (proj1 (proj2 (classification_fail_open offline
                         (sample_email "a@b.c" "my insurance policy" [])
                         empty_world eq_refl))).
Defined.

(** ** Footprints of the effectful operations *)

Section Footprints.

Variable fp : footprint.

Lemma evolves_refl (w : world) : evolves fp w w.
Proof.
  repeat split; try reflexivity.
  exists []. split; [now rewrite app_nil_r|reflexivity].
Qed.

Lemma evolves_trans (w1 w2 w3 : world) :
  evolves fp w1 w2 -> evolves fp w2 w3 -> evolves fp w1 w3.
Proof.
  intros (Hq1 & Ht1 & e1 & Hl1 & Hok1) (Hq2 & Ht2 & e2 & Hl2 & Hok2).
  split; [|split].
  - intros H. now rewrite Hq2, Hq1.
  - intros H. now rewrite Ht2, Ht1.
  - exists (e1 ++ e2)%list. split.
    + now rewrite Hl2, Hl1, app_assoc.
    + rewrite forallb_app, Hok1, Hok2. reflexivity.
Qed.

Lemma keeps_ret {A : Type} (a : A) : keeps fp (ret a).
Proof. intros w. apply evolves_refl. Qed.

Lemma keeps_bind {A B : Type} (m : M A) (k : A -> M B) :
  keeps fp m -> (forall a, keeps fp (k a)) -> keeps fp (bind m k).
Proof.
  intros Hm Hk w. unfold bind.
  specialize (Hm w). destruct (m w) as [a w1]. simpl in Hm.
  eapply evolves_trans; [exact Hm|apply Hk].
Qed.

Lemma keeps_get {A : Type} (field : world -> A) : keeps fp (get field).
Proof. intros w. apply evolves_refl. Qed.

Lemma keeps_silent {A : Type} (m : M A) :
  (forall w, email_queue (snd (m w)) = email_queue w
             /\ mail_tracking (snd (m w)) = mail_tracking w
             /\ log (snd (m w)) = log w) ->
  keeps fp m.
Proof.
  intros H w. destruct (H w) as (Hq & Ht & Hl).
  split; [auto|split; [auto|]].
  exists []. split; [now rewrite app_nil_r|reflexivity].
Qed.

Lemma keeps_now : keeps fp now.
Proof. apply keeps_silent. intros w. repeat split. Qed.

Lemma keeps_set_fulfillment (f : list fulfillment_doc) :
  keeps fp (set_fulfillment f).
Proof. apply keeps_silent. intros w. repeat split. Qed.

Lemma keeps_set_files (f : list string) : keeps fp (set_files f).
Proof. apply keeps_silent. intros w. repeat split. Qed.

Lemma keeps_set_dirs (d : list string) : keeps fp (set_dirs d).
Proof. apply keeps_silent. intros w. repeat split. Qed.

Lemma keeps_set_mongo_client (b : bool) : keeps fp (set_mongo_client b).
Proof. apply keeps_silent. intros w. repeat split. Qed.

Lemma keeps_emit (e : event) : may_emit fp e = true -> keeps fp (emit e).
Proof.
  intros He w. split; [reflexivity|split; [reflexivity|]].
  exists [e]. split; [reflexivity|]. simpl. now rewrite He.
Qed.

Lemma keeps_set_queue (q : list email_data) :
  may_queue fp = true -> keeps fp (set_queue q).
Proof.
  intros Hq w. split; [intros H; congruence|split; [reflexivity|]].
  exists []. split; [simpl; now rewrite app_nil_r|reflexivity].
Qed.

Lemma keeps_set_mail_tracking (t : list tracking_doc) :
  may_track fp = true -> keeps fp (set_mail_tracking t).
Proof.
  intros Ht w. split; [reflexivity|split; [intros H; congruence|]].
  exists []. split; [simpl; now rewrite app_nil_r|reflexivity].
Qed.

End Footprints.

Lemma keeps_weaken {A : Type} (fp1 fp2 : footprint) (m : M A) :
  (forall e, may_emit fp1 e = true -> may_emit fp2 e = true) ->
  (may_queue fp2 = false -> may_queue fp1 = false) ->
  (may_track fp2 = false -> may_track fp1 = false) ->
  keeps fp1 m -> keeps fp2 m.
Proof.
  intros He Hq Ht Hm w. destruct (Hm w) as (Hq1 & Ht1 & evs & Hl & Hok).
  split; [auto|split; [auto|]].
  exists evs. split; [exact Hl|].
  rewrite forallb_forall in *. auto.
Qed.

Create HintDb keeps.

#[local] Hint Resolve keeps_ret keeps_get keeps_now keeps_set_fulfillment
  keeps_set_files keeps_set_dirs keeps_set_mongo_client : keeps.

Ltac keeps_step :=
  lazymatch goal with
  | |- keeps _ (bind _ _) => apply keeps_bind; [|intros ?]
  | |- keeps _ (ret _) => apply keeps_ret
  | |- keeps _ (emit _) => apply keeps_emit; reflexivity
  | |- keeps _ (set_queue _) => apply keeps_set_queue; reflexivity
  | |- keeps _ (set_mail_tracking _) =>
      apply keeps_set_mail_tracking; reflexivity
  | |- keeps _ (if ?b then _ else _) => destruct b
  | |- keeps _ (match ?x with _ => _ end) => destruct x
  | |- keeps _ _ => solve [auto with keeps]
  end.

Ltac keeps_auto := cbv zeta; repeat (keeps_step; cbv zeta).

Section QueueFootprint.

Import Fulfillment Monitor.

Variable E : environment.

Lemma keeps_send_mail_via_service (a b c : string) :
  keeps record_fp (send_mail_via_service E a b c).
Proof. unfold send_mail_via_service. keeps_auto. Qed.

Lemma keeps_assess_fulfillment_with_llm (email : email_data) :
  keeps record_fp (assess_fulfillment_with_llm E email).
Proof. unfold assess_fulfillment_with_llm. keeps_auto. Qed.

Lemma keeps_add_fulfillment (data : fulfillment_request) :
  keeps record_fp (add_fulfillment E data).
Proof. unfold add_fulfillment. keeps_auto. Qed.

Hint Resolve keeps_send_mail_via_service keeps_assess_fulfillment_with_llm
  keeps_add_fulfillment : keeps.

Lemma keeps_save_to_fulfillment_table (email : email_data)
  (status missing : string) (result : option mongodb_result) :
  keeps record_fp (save_to_fulfillment_table E email status missing result).
Proof. unfold save_to_fulfillment_table. keeps_auto. Qed.

Lemma keeps_upload_file (name : string) :
  keeps record_fp (upload_file E name).
Proof. unfold upload_file. keeps_auto. Qed.

Hint Resolve keeps_save_to_fulfillment_table keeps_upload_file : keeps.

Lemma keeps_upload_attachments (paths : list string) :
  keeps record_fp (upload_attachments E paths).
Proof.
  induction paths as [|p rest IH]; simpl; keeps_auto.
Qed.

Hint Resolve keeps_upload_attachments : keeps.

Lemma keeps_upload_complete_email (email : email_data) :
  keeps record_fp (upload_complete_email E email).
Proof. unfold upload_complete_email. keeps_auto. Qed.

Hint Resolve keeps_upload_complete_email : keeps.

Lemma keeps_upload_to_mongodb (email : email_data) :
  keeps record_fp (upload_to_mongodb_for_completed_fulfillment E email).
Proof. unfold upload_to_mongodb_for_completed_fulfillment. keeps_auto. Qed.

Lemma keeps_remove_attachments (paths : list string) :
  keeps record_fp (remove_attachments E paths).
Proof.
  induction paths as [|p rest IH]; simpl; keeps_auto.
Qed.

Hint Resolve keeps_upload_to_mongodb keeps_remove_attachments : keeps.

Lemma keeps_cleanup (email : email_data) :
  keeps record_fp (cleanup_local_files_after_mongodb_upload E email).
Proof. unfold cleanup_local_files_after_mongodb_upload. keeps_auto. Qed.

Hint Resolve keeps_cleanup : keeps.

Lemma keeps_complete_claim (email : email_data) :
  keeps record_fp (complete_claim E email).
Proof. unfold complete_claim. keeps_auto. Qed.

Lemma keeps_pend_claim (email : email_data) (a : assessment) :
  keeps record_fp (pend_claim E email a).
Proof. unfold pend_claim. keeps_auto. Qed.

Lemma keeps_assess_and_parse (email : email_data) :
  keeps record_fp (assess_and_parse E email).
Proof. unfold assess_and_parse. keeps_auto. Qed.

Hint Resolve keeps_complete_claim keeps_pend_claim keeps_assess_and_parse
  : keeps.

Lemma keeps_process_email_fulfillment (email : email_data) :
  keeps record_fp (process_email_fulfillment E email).
Proof. unfold process_email_fulfillment. keeps_auto. Qed.

Lemma keeps_check_user_registration (address : string) :
  keeps record_fp (check_user_registration E address).
Proof. unfold check_user_registration. keeps_auto. Qed.

Lemma keeps_send_unregistered (address claim : string) :
  keeps record_fp (send_unregistered_user_email_via_service E address claim).
Proof. unfold send_unregistered_user_email_via_service. keeps_auto. Qed.

Hint Resolve keeps_process_email_fulfillment keeps_check_user_registration
  keeps_send_unregistered : keeps.

Lemma keeps_process_record (email : email_data) :
  keeps record_fp (process_record E email).
Proof. unfold process_record. keeps_auto. Qed.

Lemma keeps_process_record_drain (email : email_data) :
  keeps drain_fp (process_record E email).
Proof.
  apply (keeps_weaken record_fp); auto using keeps_process_record.
Qed.

Hint Resolve keeps_process_record_drain : keeps.

Lemma keeps_drain (pending : list email_data) (n : nat) :
  keeps drain_fp (drain E pending n).
Proof.
  revert n. induction pending as [|email rest IH]; intros n; simpl;
    keeps_auto.
Qed.

Hint Resolve keeps_drain : keeps.

Lemma keeps_process_email_queue : keeps drain_fp (process_email_queue E).
Proof. unfold process_email_queue. keeps_auto. Qed.

End QueueFootprint.

(** ** The queue processor *)

Section QueueProperties.

Import Fulfillment Monitor.

Variable E : environment.

Lemma unconfirmed_transport_error : confirms TransportError = false.
Proof. reflexivity. Qed.

Lemma unconfirmed_status_code (status_code : nat)
  (body : option directory_json) :
  status_code <> 200 -> confirms (Response status_code body) = false.
Proof.
  intros H. unfold confirms. destruct body; [|reflexivity].
  apply Nat.eqb_neq in H. now rewrite H.
Qed.

(** The verdict of [check_user_registration] is [confirms] of the reply
    it received; the call logs the lookup and changes nothing else. *)
Lemma check_user_registration_verdict (address : string) (w : world) :
  let reply := directory_get E (clock w) address in
  fst (fst (check_user_registration E address w)) = confirms reply
  /\ snd (check_user_registration E address w)
     = snd (emit (DirectoryLookup address reply) (snd (now w))).
Proof.
  unfold check_user_registration, bind. simpl.
  destruct (directory_get E (clock w) address) as [|code [data|]]; simpl;
    try (split; reflexivity).
  - destruct (code =? 200); simpl; [|split; reflexivity].
    destruct (dj_status data) as [status|];
      [destruct (String.eqb status "success")|];
      destruct (dj_user data); split; reflexivity.
  - destruct (code =? 200); split; reflexivity.
Qed.

(** C7, as the code has it.  Registration gate: when the directory does
    not confirm the sender of the record being processed (a reply that is
    not 200, a transport error and a reply without [success] all count), no
    assessment is requested, no request reaches the fulfillment store, and
    the store is left as it was.  After the lookup at most one request is
    made, the registration notice to the mail service: exactly one, to the
    sender, when its text can be built, and the record is counted when the
    mail service answers 200; none when the text cannot be built, which
    happens only when formatting the template raises, and the record is not
    counted. *)
Theorem registration_gate (email : email_data) (w : world) :
  record_fault E (clock w) = false ->
  confirms (directory_get E (S (clock w)) (sender_email email)) = false ->
  let lookup :=
    DirectoryLookup (sender_email email)
      (directory_get E (S (clock w)) (sender_email email)) in
  fulfillment (snd (process_record E email w)) = fulfillment w
  /\ match unregistered_user_email E (sender_email email) (claim_id email)
     with
     | Some (subject, body) =>
         let request :=
           {| mail_id := sender_email email; mail_subject := subject;
              mail_content := body |} in
         let reply := mail_post E (S (S (clock w))) request in
         logged w (snd (process_record E email w))
           [lookup; RegistrationNotice request reply]
         /\ fst (process_record E email w) = Handled (mail_accepted reply)
     | None =>
         logged w (snd (process_record E email w)) [lookup]
         /\ fst (process_record E email w) = Handled false
         /\ exists template,
              str_format E template
                [("claim_id", claim_id email);
                 ("user_email", sender_email email)] = None
     end.
Proof.
  intros Hfault Hreply.
  assert (Hraises :
    unregistered_user_email E (sender_email email) (claim_id email) = None ->
    exists template,
      str_format E template
        [("claim_id", claim_id email); ("user_email", sender_email email)]
      = None).
  { unfold unregistered_user_email.
    destruct (match load_prompt_file E "user_not_found_email.txt" with
              | Some (String _ _) =>
                  load_prompt_file E "user_not_found_email.txt"
              | _ => load_prompt_file E "user_not_found_fallback.txt"
              end) as [[|c rest]|]; try discriminate.
    destruct (str_format E _ _) eqn:Hformat; [discriminate|].
    intros _. eexists. exact Hformat. }
  unfold process_record, bind. simpl. rewrite Hfault.
  destruct (check_user_registration E (sender_email email) _)
    as [[registered user] w1] eqn:Hcheck.
  match type of Hcheck with
  | check_user_registration E _ ?w0 = _ =>
      pose proof (check_user_registration_verdict (sender_email email) w0)
        as [Hverdict Hworld]
  end.
  rewrite Hcheck in Hverdict, Hworld. simpl in Hverdict, Hworld.
  rewrite Hreply in Hverdict. subst registered w1.
  unfold send_unregistered_user_email_via_service, logged.
  destruct (unregistered_user_email E (sender_email email) (claim_id email))
    as [[subject body]|]; simpl.
  - unfold bind, mail_accepted. simpl.
    destruct (mail_post E (S (S (clock w))) _) as [|code answer]; simpl;
      rewrite <- app_assoc; repeat split; reflexivity.
  - split; [reflexivity|]. split; [reflexivity|]. split; [reflexivity|].
    now apply Hraises.
Qed.

Lemma drain_cons (email : email_data) (rest : list email_data) (n : nat)
  (w : world) :
  drain E (email :: rest) n w =
  match fst (process_record E email (snd (set_queue rest w))) with
  | Handled counted =>
      drain E rest (if counted then S n else n)
        (snd (process_record E email (snd (set_queue rest w))))
  | Raised => (n, snd (process_record E email (snd (set_queue rest w))))
  end.
Proof.
  simpl. unfold bind at 1 2. simpl.
  destruct (process_record E email _) as [[counted|] w1]; reflexivity.
Qed.

Lemma process_record_fault (email : email_data) (w : world) :
  record_fault E (clock w) = true ->
  process_record E email w = (Raised, snd (now w)).
Proof.
  intros H. unfold process_record, bind. simpl. now rewrite H.
Qed.

Lemma process_record_no_fault (email : email_data) (w : world) :
  record_fault E (clock w) = false ->
  fst (process_record E email w) <> Raised.
Proof.
  intros H. unfold process_record, bind. simpl. rewrite H.
  destruct (check_user_registration E (sender_email email) _)
    as [[[|] user] w1]; simpl.
  - destruct (process_email_fulfillment E email w1). discriminate.
  - destruct (send_unregistered_user_email_via_service E _ _ w1).
    discriminate.
Qed.

Lemma drain_without_fault (pending : list email_data) (n : nat) (w : world) :
  (forall t, record_fault E t = false) ->
  email_queue (snd (drain E pending n w)) =
  match pending with
  | [] => email_queue w
  | _ :: _ => []
  end.
Proof.
  intros Hnone. revert n w.
  induction pending as [|email rest IH]; intros n w; [reflexivity|].
  rewrite drain_cons.
  pose proof (process_record_no_fault email (snd (set_queue rest w))
                (Hnone _)) as Hflow.
  pose proof (keeps_process_record E email (snd (set_queue rest w)))
    as (Hqueue & _).
  specialize (Hqueue eq_refl).
  destruct (process_record E email (snd (set_queue rest w)))
    as [[counted|] w1]; simpl in *; [|now elim Hflow].
  rewrite IH, Hqueue. now destruct rest.
Qed.

(** C3, as the code has it.  An exception raised while a record is
    processed is caught and ends the drain: [process_email_queue] goes on
    to its summary with the counter reached so far, the failing record has
    left the queue, and the records behind it stay queued, untouched by
    this drain.  When no exception is raised the queue is drained to the
    last record. *)
Theorem fault_ends_the_drain
  (email : email_data) (rest : list email_data) (n : nat) (w : world) :
  (record_fault E (clock w) = true ->
   fst (drain E (email :: rest) n w) = n
   /\ email_queue (snd (drain E (email :: rest) n w)) = rest
   /\ log (snd (drain E (email :: rest) n w)) = log w
   /\ fulfillment (snd (drain E (email :: rest) n w)) = fulfillment w)
  /\ ((forall t, record_fault E t = false) ->
      email_queue (snd (drain E (email :: rest) n w)) = []).
Proof.
  split.
  - intros Hfault. rewrite drain_cons.
    rewrite (process_record_fault email (snd (set_queue rest w)) Hfault).
    simpl. repeat split.
  - intros Hnone. now rewrite drain_without_fault.
Qed.

End QueueProperties.

(** ** The fulfillment engine *)

Section FulfillmentProperties.

Import Fulfillment.

Variable E : environment.

#[local] Arguments api_data : simpl never.

Lemma not_stored_when_unchanged (status : string) (email : email_data)
  (before after : world) :
  fulfillment after = fulfillment before -> ~ stored status email before after.
Proof.
  intros Heq (doc & Hgrow & _). rewrite Heq in Hgrow.
  apply (f_equal (@length _)) in Hgrow.
  rewrite length_app in Hgrow. simpl in Hgrow. lia.
Qed.

Lemma upload_complete_email_returns (email : email_data) (w : world) :
  fst (upload_complete_email E email w) <> None.
Proof.
  unfold upload_complete_email, bind.
  destruct (now w) as [stamp w0].
  destruct (upload_file E _ w0) as [mail w1].
  destruct (upload_attachments E _ w1) as [atts w2].
  simpl. discriminate.
Qed.

Lemma process_after_assessment
  (email : email_data) (w w1 : world) (a : assessment) :
  assess_and_parse E email w = (Some a, w1) ->
  process_email_fulfillment E email w =
  match a_status a with
  | COMPLETED => complete_claim E email w1
  | PENDING => pend_claim E email a w1
  end.
Proof.
  intros H. unfold process_email_fulfillment, bind. rewrite H.
  destruct (a_status a); reflexivity.
Qed.

Lemma api_data_user_mail (email : email_data) (status missing : string)
  (result : option mongodb_result) :
  user_mail (api_data email status missing result) = sender_email email.
Proof.
  unfold api_data. destruct result;
    destruct (String.eqb status "completed"); reflexivity.
Qed.

(** What [save_to_fulfillment_table] does, by the answer of the store. *)
Lemma save_to_fulfillment_table_answer (email : email_data)
  (status missing : string) (result : option mongodb_result) (w : world) :
  let request := api_data email status missing result in
  let saved := save_to_fulfillment_table E email status missing result w in
  match store_answer E (sender_email email) (clock w) with
  | Some id =>
      fst saved = Some id
      /\ fulfillment (snd saved)
         = (fulfillment w ++ [request_data request id (S (clock w))])%list
      /\ log (snd saved)
         = (log w ++ [AddFulfillment request (Response 200 (Some id))])%list
      /\ clock (snd saved) = S (S (clock w))
  | None =>
      fst saved = None
      /\ fulfillment (snd saved) = fulfillment w
      /\ exists reply,
           log (snd saved) = (log w ++ [AddFulfillment request reply])%list
  end.
Proof.
  cbv zeta.
  unfold save_to_fulfillment_table, add_fulfillment, store_answer, bind.
  simpl. rewrite api_data_user_mail.
  destruct (fulfillment_api_up E (clock w)); simpl;
    [destruct (email_str_valid E (sender_email email)); simpl;
     [destruct (db_insert_one E (S (clock w))) as [id|]; simpl|]|].
  - repeat split; reflexivity.
  - repeat split; try reflexivity. eexists. reflexivity.
  - repeat split; try reflexivity. eexists. reflexivity.
  - repeat split; try reflexivity. eexists. reflexivity.
Qed.

Lemma pend_claim_run (email : email_data) (a : assessment) (w : world) :
  pend_claim E email a w =
  let saved :=
    save_to_fulfillment_table E email "pending" (a_missing_items a) None w in
  match fst saved with
  | Some _ =>
      let sent :=
        send_mail_via_service E (sender_email email)
          "Insurance Claim - Additional Information Required"
          (a_email_content a) (snd saved) in
      (if fst sent then RTrue else RFalse, snd sent)
  | None => (RNone, snd saved)
  end.
Proof.
  unfold pend_claim. unfold bind at 1.
  destruct (save_to_fulfillment_table E email "pending" (a_missing_items a)
              None w) as [[id|] w1]; cbn [fst snd]; [|reflexivity].
  unfold bind.
  destruct (send_mail_via_service E _ _ _ w1) as [[|] w2]; reflexivity.
Qed.

Lemma send_mail_via_service_run (to_email subject content : string)
  (w : world) :
  let request :=
    {| mail_id := to_email; mail_subject := subject;
       mail_content := content |} in
  fst (send_mail_via_service E to_email subject content w)
  = mail_accepted (mail_post E (clock w) request)
  /\ log (snd (send_mail_via_service E to_email subject content w))
     = (log w ++ [SendMail request (mail_post E (clock w) request)])%list
  /\ fulfillment (snd (send_mail_via_service E to_email subject content w))
     = fulfillment w.
Proof.
  unfold send_mail_via_service, bind, now, emit, mail_accepted. simpl.
  destruct (mail_post E (clock w) _) as [|code answer]; repeat split.
Qed.

(** C8. The PENDING branch.  When the store takes the record, the record
    is stored first, with status pending, and the notification is sent
    after it; the operation reports success exactly when the mail service
    accepts the notification, and the record is in the store, with status
    pending, when the operation ends, whatever became of the notification.
    When the store does not take the record nothing is stored, no
    notification is sent and the operation reports failure: success is
    reported exactly when both the storing and the sending succeeded. *)
Theorem pending_branch_result
  (email : email_data) (w w1 : world) (a : assessment) :
  assess_and_parse E email w = (Some a, w1) ->
  a_status a = PENDING ->
  let final := snd (process_email_fulfillment E email w) in
  let result := fst (process_email_fulfillment E email w) in
  let request := api_data email "pending" (a_missing_items a) None in
  let notification :=
    {| mail_id := sender_email email;
       mail_subject := "Insurance Claim - Additional Information Required";
       mail_content := a_email_content a |} in
  match store_answer E (sender_email email) (clock w1) with
  | Some id =>
      let reply := mail_post E (S (S (clock w1))) notification in
      stored "pending" email w1 final
      /\ logged w1 final
           [AddFulfillment request (Response 200 (Some id));
            SendMail notification reply]
      /\ (succeeded result = true <-> mail_accepted reply = true)
  | None =>
      fulfillment final = fulfillment w1
      /\ (exists reply, logged w1 final [AddFulfillment request reply])
      /\ succeeded result = false
  end.
Proof.
  intros Hassess Hstatus. cbv zeta.
  rewrite (process_after_assessment _ _ _ _ Hassess), Hstatus.
  pose proof (save_to_fulfillment_table_answer email "pending"
                (a_missing_items a) None w1) as Hsave.
  cbv zeta in Hsave. rewrite pend_claim_run. cbv zeta.
  destruct (save_to_fulfillment_table E email "pending" (a_missing_items a)
              None w1) as [saved w2].
  cbn [fst snd] in Hsave |- *.
  destruct (store_answer E (sender_email email) (clock w1)) as [id|].
  - destruct Hsave as (-> & Hstore & Hlog & Hclock).
    destruct (send_mail_via_service_run (sender_email email)
                "Insurance Claim - Additional Information Required"
                (a_email_content a) w2) as (Hsent & Hlog' & Hstore').
    cbv zeta in Hsent, Hlog', Hstore'. rewrite Hclock in Hsent, Hlog'.
    cbn [fst snd]. unfold stored, logged.
    split; [|split].
    + eexists. split; [rewrite Hstore', Hstore; reflexivity|].
      unfold api_data. repeat split; reflexivity.
    + rewrite Hlog', Hlog, <- app_assoc. reflexivity.
    + rewrite Hsent.
      destruct (mail_accepted _); simpl; split; auto.
  - destruct Hsave as (-> & Hstore & reply & Hlog).
    cbn [fst snd]. repeat split; [exact Hstore|].
    exists reply. exact Hlog.
Qed.

Lemma save_to_fulfillment_table_run (email : email_data)
  (status missing : string) (result : option mongodb_result) (w : world) :
  exists reply,
    log (snd (save_to_fulfillment_table E email status missing result w))
    = (log w
       ++ [AddFulfillment (api_data email status missing result) reply])%list
    /\ files (snd (save_to_fulfillment_table E email status missing result w))
       = files w
    /\ dirs (snd (save_to_fulfillment_table E email status missing result w))
       = dirs w
    /\ match reply with
       | Response _ (Some id) =>
           fst (save_to_fulfillment_table E email status missing result w)
           = Some id
           /\ exists created,
                fulfillment
                  (snd (save_to_fulfillment_table E email status missing
                          result w))
                = (fulfillment w
                   ++ [request_data (api_data email status missing result)
                         id created])%list
       | _ =>
           fst (save_to_fulfillment_table E email status missing result w)
           = None
           /\ fulfillment
                (snd (save_to_fulfillment_table E email status missing
                        result w))
              = fulfillment w
       end.
Proof.
  unfold save_to_fulfillment_table, add_fulfillment, bind. simpl.
  destruct (fulfillment_api_up E (clock w)); simpl;
    [destruct (email_str_valid E _); simpl;
     [destruct (db_insert_one E _) as [id|]; simpl|]|].
  all: eexists; split; [reflexivity|]; split; [reflexivity|];
    split; [reflexivity|]; cbn [fst snd]; split; try reflexivity.
  eexists. reflexivity.
Qed.

(** What a failed archive upload leaves behind: the attempt to connect. *)
Lemma upload_without_result (email : email_data) (w : world) :
  fst (upload_to_mongodb_for_completed_fulfillment E email w) = None ->
  exists outcome,
    log (snd (upload_to_mongodb_for_completed_fulfillment E email w))
    = (log w ++ [MongoConnect outcome])%list
    /\ files (snd (upload_to_mongodb_for_completed_fulfillment E email w))
       = files w
    /\ dirs (snd (upload_to_mongodb_for_completed_fulfillment E email w))
       = dirs w
    /\ fulfillment
         (snd (upload_to_mongodb_for_completed_fulfillment E email w))
       = fulfillment w.
Proof.
  unfold upload_to_mongodb_for_completed_fulfillment, bind, get, now, emit.
  simpl.
  destruct (mongo_client w) eqn:Hclient.
  { intros Hnone. now apply upload_complete_email_returns in Hnone. }
  destruct (mongo_connect E (clock w)) eqn:Hconnect; simpl.
  { intros Hnone. now apply upload_complete_email_returns in Hnone. }
  all: intros _; eexists; repeat split; reflexivity.
Qed.

Lemma complete_claim_without_archive (email : email_data) (w : world) :
  fst (upload_to_mongodb_for_completed_fulfillment E email w) = None ->
  complete_claim E email w =
  (match fst (save_to_fulfillment_table E email "completed" "" None
                (snd (upload_to_mongodb_for_completed_fulfillment E email w)))
   with
   | Some id => RId id
   | None => RNone
   end,
   snd (save_to_fulfillment_table E email "completed" "" None
          (snd (upload_to_mongodb_for_completed_fulfillment E email w)))).
Proof.
  intros Hnone. unfold complete_claim. unfold bind at 1.
  destruct (upload_to_mongodb_for_completed_fulfillment E email w)
    as [result w1]. simpl in Hnone. subst result. simpl.
  unfold bind.
  destruct (save_to_fulfillment_table E email "completed" "" None w1)
    as [[id|] w2]; reflexivity.
Qed.

Lemma upload_without_result_clock (email : email_data) (w : world) :
  fst (upload_to_mongodb_for_completed_fulfillment E email w) = None ->
  clock (snd (upload_to_mongodb_for_completed_fulfillment E email w))
  = S (clock w).
Proof.
  unfold upload_to_mongodb_for_completed_fulfillment, bind, get, now, emit.
  simpl.
  destruct (mongo_client w) eqn:Hclient.
  { intros Hnone. now apply upload_complete_email_returns in Hnone. }
  destruct (mongo_connect E (clock w)) eqn:Hconnect; simpl.
  { intros Hnone. now apply upload_complete_email_returns in Hnone. }
  all: reflexivity.
Qed.

(** C9. Archive failure: when the status is COMPLETED and the archive
    upload returns no result, the operation does nothing to the archive
    beyond the attempt to connect, removes no local file and no local
    directory, and still sends the record to the store, with status
    completed and without archive references.  When the store takes the
    record, the record is in the store when the operation ends, with status
    completed and no archive references, and its id is returned; when the
    store does not take it, nothing is stored and the operation reports
    failure. *)
Theorem archive_failure_degrades
  (email : email_data) (w w1 : world) (a : assessment) :
  assess_and_parse E email w = (Some a, w1) ->
  a_status a = COMPLETED ->
  fst (upload_to_mongodb_for_completed_fulfillment E email w1) = None ->
  let final := snd (process_email_fulfillment E email w) in
  let result := fst (process_email_fulfillment E email w) in
  let request := api_data email "completed" "" None in
  files final = files w1
  /\ dirs final = dirs w1
  /\ (exists outcome reply,
        logged w1 final [MongoConnect outcome; AddFulfillment request reply])
  /\ match store_answer E (sender_email email) (S (clock w1)) with
     | Some id =>
         result = RId id
         /\ exists doc,
              fulfillment final = (fulfillment w1 ++ [doc])%list
              /\ doc_claim_id doc = claim_id email
              /\ doc_user_mail doc = sender_email email
              /\ doc_fulfillment_status doc = "completed"
              /\ no_archive_refs doc
     | None =>
         result = RNone /\ fulfillment final = fulfillment w1
     end.
Proof.
  intros Hassess Hstatus Harchive. cbv zeta.
  rewrite (process_after_assessment _ _ _ _ Hassess), Hstatus.
  rewrite (complete_claim_without_archive _ _ Harchive).
  destruct (upload_without_result _ _ Harchive)
    as (outcome & Hlog1 & Hfiles1 & Hdirs1 & Hstore1).
  pose proof (upload_without_result_clock _ _ Harchive) as Hclock1.
  destruct (save_to_fulfillment_table_run email "completed" "" None
              (snd (upload_to_mongodb_for_completed_fulfillment E email w1)))
    as (reply & Hlog2 & Hfiles2 & Hdirs2 & _).
  pose proof (save_to_fulfillment_table_answer email "completed" "" None
                (snd (upload_to_mongodb_for_completed_fulfillment E email
                        w1))) as Hsave.
  cbv zeta in Hsave. rewrite Hclock1 in Hsave.
  cbn [fst snd]. unfold logged.
  split; [congruence|]. split; [congruence|].
  split; [exists outcome, reply;
          rewrite Hlog2, Hlog1, <- app_assoc; reflexivity|].
  destruct (store_answer E (sender_email email) (S (clock w1))) as [id|].
  - destruct Hsave as (-> & Hstore2 & _). split; [reflexivity|].
    eexists. split; [rewrite Hstore2, Hstore1; reflexivity|].
    unfold api_data. repeat split; reflexivity.
  - destruct Hsave as (-> & Hstore2 & _). split; [reflexivity|].
    now rewrite Hstore2.
Qed.

End FulfillmentProperties.

(** ** The poll cycle *)

Lemma stored_count_last (w : world) (older : list tracking_doc)
  (latest : tracking_doc) :
  mail_tracking w = (older ++ [latest])%list ->
  stored_count w = mail_count latest.
Proof.
  intros H. unfold stored_count. now rewrite H, rev_app_distr.
Qed.

Lemma nonempty_last {A : Type} (l : list A) :
  l <> [] -> exists older latest, l = (older ++ [latest])%list.
Proof.
  intros H. destruct (exists_last H) as (older & latest & ->).
  now exists older, latest.
Qed.

Section PollProperties.

Import Fulfillment Monitor.

Variable E : environment.

Lemma keeps_filter_email_with_llm (email : email_data) :
  keeps ingest_fp (filter_email_with_llm E email).
Proof. unfold filter_email_with_llm. keeps_auto. Qed.

Lemma keeps_discard_attachments (paths : list string) :
  keeps ingest_fp (discard_attachments E paths).
Proof. induction paths as [|p rest IH]; simpl; keeps_auto. Qed.

Lemma keeps_discard_claim_folder (paths : list string) :
  keeps ingest_fp (discard_claim_folder E paths).
Proof. unfold discard_claim_folder. keeps_auto. Qed.

Hint Resolve keeps_filter_email_with_llm keeps_discard_attachments
  keeps_discard_claim_folder : keeps.

Lemma keeps_ingest_message (fetched : option (email_data * string)) :
  keeps ingest_fp (ingest_message E fetched).
Proof. unfold ingest_message. keeps_auto. Qed.

Lemma ingest_events_fetch_nothing (events : list event) :
  forallb ingest_event events = true ->
  forallb fetch_event events = true /\ fetched_ids events = [].
Proof.
  induction events as [|e rest IH]; simpl; [auto|].
  intros H. apply andb_true_iff in H as [He Hrest].
  destruct (IH Hrest) as [IH1 IH2].
  destruct e; simpl in *; try discriminate He; rewrite ?IH1; auto.
Qed.

Lemma fetched_ids_app (l1 l2 : list event) :
  fetched_ids (l1 ++ l2) = (fetched_ids l1 ++ fetched_ids l2)%list.
Proof. unfold fetched_ids. apply flat_map_app. Qed.

Lemma fetch_range_cons (i : nat) (rest : list nat) (n : nat) (w : world) :
  fetch_range E (i :: rest) n w =
  fetch_range E rest (if fst (fetch_one E i w) then S n else n)
    (snd (fetch_one E i w)).
Proof.
  simpl. unfold bind. destruct (fetch_one E i w). reflexivity.
Qed.

Lemma fetch_one_run (i : nat) (w : world) :
  mail_tracking (snd (fetch_one E i w)) = mail_tracking w
  /\ exists fetched events,
       log (snd (fetch_one E i w))
       = (log w ++ FetchMessage i fetched :: events)%list
       /\ forallb ingest_event events = true.
Proof.
  unfold fetch_one, bind, now, emit. simpl.
  match goal with
  | |- context [ingest_message E ?f ?w0] =>
      destruct (keeps_ingest_message f w0)
        as (_ & Htrack & events & Hlog & Hok)
  end.
  specialize (Htrack eq_refl). simpl in Htrack, Hlog.
  split; [exact Htrack|].
  do 2 eexists. split; [|exact Hok].
  rewrite Hlog, <- app_assoc. reflexivity.
Qed.

(** The fetch loop logs one fetch for every sequence number of its range,
    in order, whatever the fetches give, and leaves the tracking
    collection alone. *)
Lemma fetch_range_run (ids : list nat) (n : nat) (w : world) :
  mail_tracking (snd (fetch_range E ids n w)) = mail_tracking w
  /\ exists events,
       log (snd (fetch_range E ids n w)) = (log w ++ events)%list
       /\ forallb fetch_event events = true
       /\ fetched_ids events = ids.
Proof.
  revert n w. induction ids as [|i rest IH]; intros n w.
  - split; [reflexivity|]. exists []. simpl. now rewrite app_nil_r.
  - rewrite fetch_range_cons.
    destruct (fetch_one_run i w) as (Htrack & fetched & evs & Hlog & Hok).
    destruct (IH (if fst (fetch_one E i w) then S n else n)
                (snd (fetch_one E i w)))
      as (Htrack' & evs' & Hlog' & Hok' & Hids').
    split; [now rewrite Htrack'|].
    destruct (ingest_events_fetch_nothing _ Hok) as [Hok1 Hnone].
    exists (FetchMessage i fetched :: evs ++ evs')%list.
    split; [|split].
    + rewrite Hlog', Hlog, <- !app_assoc. reflexivity.
    + simpl. now rewrite forallb_app, Hok1, Hok'.
    + simpl. now rewrite fetched_ids_app, Hnone, Hids'.
Qed.

Lemma poll_cycle_with_new_mail
  (w : world) (older : list tracking_doc) (stored time current : nat) :
  imap_count E (clock w) = Some current ->
  tracking_find E (S (clock w)) = true ->
  mail_tracking w
  = (older ++ [{| mail_count := stored;
                  last_connection_time := time |}])%list ->
  stored < current ->
  snd (poll_cycle E w) =
  let fetched :=
    fetch_new_mails_to_queue E stored current (snd (now (snd (now w)))) in
  let updated := update_mail_details E current (snd fetched) in
  if 0 <? fst fetched
  then snd (process_email_queue E (snd updated))
  else snd updated.
Proof.
  intros Hcount Hfind Htracking Hnew. apply Nat.ltb_lt in Hnew.
  unfold poll_cycle, get_current_mail_count, get_stored_mail_details,
    bind, now, get.
  simpl. rewrite Hcount. simpl. rewrite Hfind.
  replace (rev (mail_tracking w))
    with ({| mail_count := stored; last_connection_time := time |}
          :: rev older)
    by (rewrite Htracking, rev_app_distr; reflexivity).
  simpl. rewrite Hnew.
  destruct (fetch_new_mails_to_queue E stored current _)
    as [emails_added w1]. cbv zeta. cbn [fst snd].
  destruct (update_mail_details E current w1) as [ok w2]. cbn [fst snd].
  destruct (0 <? emails_added); [|reflexivity].
  destruct (process_email_queue E w2). reflexivity.
Qed.

Lemma update_mail_details_run (count : nat) (w : world) :
  log (snd (update_mail_details E count w))
  = (log w ++ [CursorInsert count (tracking_insert E (clock w))])%list
  /\ mail_tracking (snd (update_mail_details E count w))
     = if tracking_insert E (clock w)
       then (mail_tracking w
             ++ [{| mail_count := count;
                    last_connection_time := clock w |}])%list
       else mail_tracking w.
Proof.
  unfold update_mail_details, bind, now, emit, get. simpl.
  destruct (tracking_insert E (clock w)); split; reflexivity.
Qed.

Lemma queue_events_fetch_nothing (events : list event) :
  forallb queue_event events = true -> fetched_ids events = [].
Proof.
  induction events as [|e rest IH]; simpl; [reflexivity|].
  intros H. apply andb_true_iff in H as [He Hrest].
  rewrite (IH Hrest). destruct e; try discriminate He; reflexivity.
Qed.

(** A cycle with new mail: the fetches of the range, one write of the
    current count, then the processing of the queue. *)
Lemma poll_cycle_new_mail_run
  (w : world) (older : list tracking_doc) (stored time current : nat) :
  imap_count E (clock w) = Some current ->
  tracking_find E (S (clock w)) = true ->
  mail_tracking w
  = (older ++ [{| mail_count := stored;
                  last_connection_time := time |}])%list ->
  stored < current ->
  exists fetching processing t,
    log (snd (poll_cycle E w))
    = (log w
       ++ fetching
       ++ CursorInsert current (tracking_insert E t) :: processing)%list
    /\ forallb fetch_event fetching = true
    /\ fetched_ids fetching = seq (stored + 1) (current - stored)
    /\ forallb queue_event processing = true
    /\ mail_tracking (snd (poll_cycle E w))
       = if tracking_insert E t
         then (mail_tracking w
               ++ [{| mail_count := current;
                      last_connection_time := t |}])%list
         else mail_tracking w.
Proof.
  intros Hcount Hfind Htracking Hnew.
  rewrite (poll_cycle_with_new_mail w older stored time current)
    by assumption.
  cbv zeta. unfold fetch_new_mails_to_queue.
  destruct (fetch_range_run (seq (stored + 1) (current - stored)) 0
              (snd (now (snd (now w)))))
    as (Htrack1 & fetching & Hlog1 & Hok1 & Hids1).
  destruct (fetch_range E _ 0 (snd (now (snd (now w)))))
    as [emails_added w1]. cbn [fst snd] in *.
  destruct (update_mail_details_run current w1) as [Hlog2 Htrack2].
  exists fetching.
  destruct (0 <? emails_added).
  - destruct (keeps_process_email_queue E
                (snd (update_mail_details E current w1)))
      as (_ & Htrack3 & processing & Hlog3 & Hok3).
    specialize (Htrack3 eq_refl).
    exists processing, (clock w1).
    repeat split; try assumption.
    + rewrite Hlog3, Hlog2, Hlog1. simpl. rewrite <- !app_assoc.
      reflexivity.
    + rewrite Htrack3, Htrack2, Htrack1. reflexivity.
  - exists [], (clock w1).
    repeat split; try assumption.
    + rewrite Hlog2, Hlog1. simpl. rewrite <- !app_assoc. reflexivity.
    + rewrite Htrack2, Htrack1. reflexivity.
Qed.

(** What a cycle logs when it finds no cursor, and when it finds no new
    mail. *)
Lemma baseline_cycle_log (w : world) :
  mail_tracking w = [] \/ tracking_find E (S (clock w)) = false ->
  exists count inserted,
    log (snd (poll_cycle E w)) = (log w ++ [CursorInsert count inserted])%list.
Proof.
  intros Hnone.
  unfold poll_cycle, get_current_mail_count, get_stored_mail_details,
    update_mail_details, bind, now, get, emit.
  simpl.
  assert (Hread :
    (if tracking_find E (S (clock w))
     then match rev (mail_tracking w) with
          | [] => ret (0, @None nat)
          | result :: _ =>
              ret (mail_count result, Some (last_connection_time result))
          end
     else ret (0, None))
    = ret (0, None)).
  { destruct Hnone as [-> | ->]; [now destruct (tracking_find E _)|
                                   reflexivity]. }
  destruct (imap_count E (clock w)) as [current|]; simpl;
    rewrite Hread; simpl;
    destruct (tracking_insert E (S (S (clock w)))); simpl;
    do 2 eexists; reflexivity.
Qed.

Lemma quiet_cycle_log
  (w : world) (older : list tracking_doc) (latest : tracking_doc) :
  tracking_find E (S (clock w)) = true ->
  mail_tracking w = (older ++ [latest])%list ->
  inbox_count E (clock w) <= mail_count latest ->
  log (snd (poll_cycle E w)) = log w.
Proof.
  intros Hfind Htracking Hcount.
  unfold poll_cycle, get_current_mail_count, get_stored_mail_details,
    bind, now, get.
  unfold inbox_count in Hcount.
  simpl. destruct (imap_count E (clock w)) as [current|]; simpl;
    rewrite Hfind;
    replace (rev (mail_tracking w)) with (latest :: rev older)
      by (rewrite Htracking, rev_app_distr; reflexivity);
    simpl; [|reflexivity].
  apply Nat.ltb_ge in Hcount. now rewrite Hcount.
Qed.

(** Whatever a cycle fetches lies above the cursor it started from. *)
Lemma poll_cycle_fetches_above (w : world) :
  exists events,
    log (snd (poll_cycle E w)) = (log w ++ events)%list
    /\ Forall (fun i => stored_count w < i) (fetched_ids events).
Proof.
  destruct (tracking_find E (S (clock w))) eqn:Hfind.
  2: { destruct (baseline_cycle_log w (or_intror Hfind))
         as (count & inserted & Hlog).
       eexists. split; [exact Hlog|constructor]. }
  destruct (mail_tracking w) as [|first others] eqn:Htracking0.
  { destruct (baseline_cycle_log w (or_introl Htracking0))
      as (count & inserted & Hlog).
    eexists. split; [exact Hlog|constructor]. }
  assert (Hnonempty : mail_tracking w <> [])
    by (rewrite Htracking0; discriminate).
  clear first others Htracking0.
  destruct (nonempty_last _ Hnonempty) as (older & latest & Htracking).
  rewrite (stored_count_last w older latest Htracking).
  destruct (le_lt_dec (inbox_count E (clock w)) (mail_count latest))
    as [Hle|Hlt].
  - exists []. rewrite app_nil_r.
    split; [now apply (quiet_cycle_log w older latest)|constructor].
  - unfold inbox_count in Hlt.
    destruct (imap_count E (clock w)) as [current|] eqn:Hcount; [|lia].
    destruct latest as [stored time]. simpl in Hlt |- *.
    destruct (poll_cycle_new_mail_run w older stored time current
                Hcount Hfind Htracking Hlt)
      as (fetching & processing & t & Hlog & _ & Hids & Hqueue & _).
    eexists. split; [exact Hlog|].
    rewrite fetched_ids_app, Hids. simpl.
    rewrite (queue_events_fetch_nothing _ Hqueue), app_nil_r.
    apply Forall_forall. intros i Hin. apply in_seq in Hin. lia.
Qed.

(** C4, as the code has it.  In a poll cycle with new mail the fetch loop
    goes through every sequence number of [stored + 1 .. current], in
    order; then one write of the current count to the tracking collection
    is attempted, before the queue is processed, whatever the fetches gave.
    When the collection accepts the write, the cursor is the current count
    when the cycle ends, and the cycle that follows fetches no sequence
    number up to it: a message whose fetch failed is not fetched by the
    next cycle.  When the collection refuses the write, the cursor is as
    before. *)
Theorem cursor_follows_the_fetch
  (w : world) (older : list tracking_doc) (stored time current : nat) :
  imap_count E (clock w) = Some current ->
  tracking_find E (S (clock w)) = true ->
  mail_tracking w
  = (older ++ [{| mail_count := stored;
                  last_connection_time := time |}])%list ->
  stored < current ->
  let final := snd (poll_cycle E w) in
  exists fetching processing t,
    logged w final
      (fetching ++ CursorInsert current (tracking_insert E t) :: processing)
    /\ forallb fetch_event fetching = true
    /\ fetched_ids fetching = seq (stored + 1) (current - stored)
    /\ forallb queue_event processing = true
    /\ if tracking_insert E t
       then mail_tracking final
            = (mail_tracking w
               ++ [{| mail_count := current;
                      last_connection_time := t |}])%list
            /\ exists later,
                 logged final (snd (poll_cycle E final)) later
                 /\ Forall (fun i => current < i) (fetched_ids later)
       else mail_tracking final = mail_tracking w.
Proof.
  intros Hcount Hfind Htracking Hnew. cbv zeta.
  destruct (poll_cycle_new_mail_run w older stored time current
              Hcount Hfind Htracking Hnew)
    as (fetching & processing & t & Hlog & Hfetch & Hids & Hqueue & Htrack).
  exists fetching, processing, t.
  repeat (split; [assumption|]).
  destruct (tracking_insert E t); [|exact Htrack].
  split; [exact Htrack|].
  destruct (poll_cycle_fetches_above (snd (poll_cycle E w)))
    as (later & Hlater & Habove).
  rewrite (stored_count_last _ _ _ Htrack) in Habove.
  exists later. split; assumption.
Qed.

End PollProperties.

(** ** The properties on concrete runs *)

(** C7, as stated, fails: the directory does not know the sender and the
    template of the notice cannot be formatted; the lookup is the only call
    made for the record, and no notice goes to the mail service. *)
Lemma registration_gate_counterexample :
  confirms (directory_get stray_field 1 (sender_email claimant)) = false
  /\ log (snd (Monitor.process_record stray_field claimant one_claim))
     = [DirectoryLookup "customer@example.com" (Response 404 None)]
  /\ (forall request reply,
        ~ In (RegistrationNotice request reply)
            (log (snd (Monitor.process_record stray_field claimant
                         one_claim))))
  /\ fst (Monitor.process_record stray_field claimant one_claim)
     = Monitor.Handled false.
Proof.
  repeat split; try (vm_compute; reflexivity).
  intros request reply. vm_compute. intros [H|[]]. discriminate H.
Qed.

Lemma registration_gate_witness :
  fulfillment
    (snd (Monitor.process_record unknown_sender_notified claimant one_claim))
  = []
  /\ logged one_claim
       (snd (Monitor.process_record unknown_sender_notified claimant
               one_claim))
       [DirectoryLookup "customer@example.com" (Response 404 None);
        RegistrationNotice
          {| mail_id := "customer@example.com";
             mail_subject := "Insurance Claim - Registration Required";
             mail_content :=
               "Dear Customer," ++ nl ++ nl
               ++ "Your email customer@example.com is not registered in our system."
               ++ nl ++ nl
               ++ "Claim Reference: CLAIM_0A1B2C3D" ++ nl ++ nl
               ++ "Please contact customer service." ++ nl ++ nl
               ++ "Best regards," ++ nl ++ "Insurance Claims Team" |}
          (Response 200 tt)]
  /\ fst (Monitor.process_record unknown_sender_notified claimant one_claim)
     = Monitor.Handled true.
Proof.
  exact (registration_gate unknown_sender_notified claimant one_claim
           eq_refl eq_refl).
Defined.

(** C3, as stated, fails: the processing of the first of two queued
    records raises; the drain returns, the second record is still in the
    queue and nothing was done for it. *)
Lemma fault_isolation_counterexample :
  email_queue (snd (Monitor.process_email_queue first_record_faults
                      two_queued))
  = [second_claimant]
  /\ log (snd (Monitor.process_email_queue first_record_faults two_queued))
     = [].
Proof. split; vm_compute; reflexivity. Qed.

Lemma fault_ends_the_drain_witness :
  email_queue (snd (Monitor.drain first_record_faults
                      [claimant; second_claimant] 0 two_queued))
  = [second_claimant].
Proof.
  exact (proj1 (proj2 (proj1 (fault_ends_the_drain first_record_faults
                                claimant [second_claimant] 0 two_queued)
                             eq_refl))).
Defined.

(** C4, as stated, fails: the fetch of message 11 fails, the cursor moves
    from 10 to 11 all the same, and the next cycle does not fetch the
    message again. *)
Lemma cursor_counterexample :
  log (snd (Monitor.monitor_mails fetch_fails 2 ten_seen))
  = [FetchMessage 11 false; CursorInsert 11 true]
  /\ map mail_count
       (mail_tracking (snd (Monitor.monitor_mails fetch_fails 2 ten_seen)))
     = [10; 11]
  /\ email_queue (snd (Monitor.monitor_mails fetch_fails 2 ten_seen)) = [].
Proof. repeat split; vm_compute; reflexivity. Qed.

Lemma cursor_follows_the_fetch_witness :
  let final := snd (Monitor.poll_cycle fetch_fails ten_seen) in
  exists fetching processing t,
    logged ten_seen final
      (fetching ++ CursorInsert 11 true :: processing)
    /\ forallb fetch_event fetching = true
    /\ fetched_ids fetching = [11]
    /\ forallb queue_event processing = true
    /\ mail_tracking final
       = [{| mail_count := 10; last_connection_time := 0 |};
          {| mail_count := 11; last_connection_time := t |}]
    /\ exists later,
         logged final (snd (Monitor.poll_cycle fetch_fails final)) later
         /\ Forall (fun i => 11 < i) (fetched_ids later).
Proof.
  exact (cursor_follows_the_fetch fetch_fails ten_seen [] 10 0 11
           eq_refl eq_refl eq_refl (le_n 11)).
Defined.

Lemma pending_branch_result_witness :
  stored "pending" claimant
    (snd (Fulfillment.assess_and_parse mail_service_down claimant one_claim))
    (snd (Fulfillment.process_email_fulfillment mail_service_down claimant
            one_claim))
  /\ logged
       (snd (Fulfillment.assess_and_parse mail_service_down claimant
               one_claim))
       (snd (Fulfillment.process_email_fulfillment mail_service_down
               claimant one_claim))
       [AddFulfillment
          (Fulfillment.api_data claimant "pending"
             "- Specific claim amount not provided" None)
          (Response 200 (Some 7));
        SendMail
          {| mail_id := "customer@example.com";
             mail_subject :=
               "Insurance Claim - Additional Information Required";
             mail_content :=
               a_email_content
                 (assessed mail_service_down claimant one_claim) |}
          (Response 500 tt)]
  /\ Fulfillment.succeeded
       (fst (Fulfillment.process_email_fulfillment mail_service_down
               claimant one_claim)) = false.
Proof.
  destruct (pending_branch_result mail_service_down claimant one_claim
              (snd (Fulfillment.assess_and_parse mail_service_down claimant
                      one_claim))
              (assessed mail_service_down claimant one_claim)
              eq_refl eq_refl) as (Hstored & Hlogged & Hresult).
  split; [exact Hstored|]. split; [exact Hlogged|].
  destruct (Fulfillment.succeeded _); [|reflexivity].
  symmetry. now apply Hresult.
Defined.

Lemma archive_failure_degrades_witness :
  files (snd (Fulfillment.process_email_fulfillment archive_down claimant
                one_claim))
  = [photo]
  /\ dirs (snd (Fulfillment.process_email_fulfillment archive_down claimant
                  one_claim))
     = ["attachments/CLAIM_0A1B2C3D"]
  /\ (exists outcome reply,
        logged
          (snd (Fulfillment.assess_and_parse archive_down claimant
                  one_claim))
          (snd (Fulfillment.process_email_fulfillment archive_down claimant
                  one_claim))
          [MongoConnect outcome;
           AddFulfillment
             (Fulfillment.api_data claimant "completed" "" None) reply])
  /\ fst (Fulfillment.process_email_fulfillment archive_down claimant
            one_claim)
     = Fulfillment.RId 7
  /\ exists doc,
       fulfillment
         (snd (Fulfillment.process_email_fulfillment archive_down claimant
                 one_claim))
       = [doc]
       /\ doc_claim_id doc = "CLAIM_0A1B2C3D"
       /\ doc_user_mail doc = "customer@example.com"
       /\ doc_fulfillment_status doc = "completed"
       /\ no_archive_refs doc.
Proof.
  exact (archive_failure_degrades archive_down claimant one_claim
           (snd (Fulfillment.assess_and_parse archive_down claimant
                   one_claim))
           (assessed archive_down claimant one_claim)
           eq_refl eq_refl eq_refl).
Defined.

(** * Further properties of the code *)

(** ** Text lemmas *)

Lemma lower_char_idempotent (c : ascii) :
  lower_char (lower_char c) = lower_char c.
Proof.
  destruct c as [[] [] [] [] [] [] [] []]; reflexivity.
Qed.

Lemma lower_idempotent (s : string) : lower (lower s) = lower s.
Proof.
  induction s as [|c t IH]; simpl; [reflexivity|].
  now rewrite lower_char_idempotent, IH.
Qed.

Lemma lower_app (a b : string) : lower (a ++ b) = lower a ++ lower b.
Proof.
  induction a as [|c t IH]; simpl; [reflexivity|]. now rewrite IH.
Qed.

Lemma lower_char_amount (c : ascii) :
  amount_char c = true -> lower_char c = c.
Proof.
  destruct c as [[] [] [] [] [] [] [] []]; intros H;
    try discriminate H; reflexivity.
Qed.

Lemma isdigit_amount (c : ascii) : isdigit c = true -> amount_char c = true.
Proof. unfold amount_char. intros ->. reflexivity. Qed.

Lemma prefix_app (n b : string) : String.prefix n (n ++ b) = true.
Proof.
  induction n as [|c t IH]; simpl; [now destruct b|].
  destruct (ascii_dec c c) as [_|Hne]; [exact IH|now elim Hne].
Qed.

Lemma contains_prefix (n h : string) :
  String.prefix n h = true -> contains n h = true.
Proof.
  intros H. destruct h; simpl; simpl in H; now rewrite H.
Qed.

Lemma contains_app (n a b : string) : contains n (a ++ n ++ b) = true.
Proof.
  induction a as [|c t IH].
  - change ("" ++ n ++ b) with (n ++ b).
    apply contains_prefix. apply prefix_app.
  - simpl. rewrite IH. apply orb_true_r.
Qed.

Lemma string_app_assoc (a b c : string) : (a ++ b) ++ c = a ++ b ++ c.
Proof.
  induction a as [|x t IH]; simpl; [reflexivity|]. now rewrite IH.
Qed.

Lemma string_length_app (a b : string) :
  String.length (a ++ b) = String.length a + String.length b.
Proof.
  induction a as [|x t IH]; simpl; [reflexivity|]. now rewrite IH.
Qed.

Lemma contains_after (n a t b c : string) :
  contains n (a ++ t ++ b ++ n ++ c) = true.
Proof.
  rewrite <- (string_app_assoc t b), <- (string_app_assoc a (t ++ b)).
  apply contains_app.
Qed.

Lemma search_app {A : Type} (at_pos : string -> option A) (a b : string) :
  at_pos b <> None -> search at_pos (a ++ b) <> None.
Proof.
  intros Hb. induction a as [|c t IH]; simpl.
  - destruct b; simpl; destruct (at_pos _); try discriminate;
      now elim Hb.
  - destruct (at_pos (String c (t ++ b))); [discriminate|exact IH].
Qed.

Lemma re_found_app (pattern : string -> bool) (a b : string) :
  pattern b = true -> Assessment.re_found pattern (a ++ b) = true.
Proof.
  intros Hb. unfold Assessment.re_found.
  pose proof (search_app (fun s => if pattern s then Some tt else None) a b)
    as H.
  cbv beta in H. rewrite Hb in H.
  destruct (search _ (a ++ b)); [reflexivity|].
  elim H; [discriminate|reflexivity].
Qed.

Lemma length_take (n : nat) (s : string) : String.length (take n s) <= n.
Proof.
  revert s. induction n as [|n IH]; intros [|c t]; simpl; try lia.
  specialize (IH t). lia.
Qed.

Lemma in_list_iff (p : string) (l : list string) :
  Fulfillment.in_list p l = true <-> In p l.
Proof.
  unfold Fulfillment.in_list. rewrite existsb_exists. split.
  - intros (q & Hin & Heq). apply String.eqb_eq in Heq. now subst.
  - intros Hin. exists p. split; [exact Hin|apply String.eqb_refl].
Qed.

Lemma in_remove_path (p q : string) (l : list string) :
  In q (Fulfillment.remove_path p l) <-> In q l /\ q <> p.
Proof.
  unfold Fulfillment.remove_path. rewrite filter_In. split.
  - intros [Hin Hne]. split; [exact Hin|].
    intros ->. now rewrite String.eqb_refl in Hne.
  - intros [Hin Hne]. split; [exact Hin|].
    destruct (String.eqb p q) eqn:Heq; [|reflexivity].
    apply String.eqb_eq in Heq. now elim Hne.
Qed.

(** ** The satisfied items and the parser *)

Section FurtherAssessment.

Import Assessment.

Variable E : environment.

(** X1. The satisfied items always start with the sender's address and
    number between one and four; they number four exactly when the email
    has an attachment and the missing-items text names neither a reason
    keyword nor an amount keyword. *)
Theorem satisfied_items_shape (email : email_data) (missing : string) :
  exists rest,
    identify_satisfied_requirements email missing = email_item :: rest
    /\ length rest <= 3
    /\ (length rest = 3
        <-> 0 < attachment_count email
            /\ any_in reason_keywords (lower missing) = false
            /\ any_in amount_keywords (lower missing) = false).
Proof.
  unfold identify_satisfied_requirements.
  destruct (any_in reason_keywords (lower missing));
    destruct (any_in amount_keywords (lower missing));
    destruct (0 <? attachment_count email) eqn:Hcount;
    destruct (any_in proof_keywords (lower missing));
    cbn [negb app]; eexists; (split; [reflexivity|]); simpl;
    (split; [lia|]).
  all: first [apply Nat.ltb_lt in Hcount | apply Nat.ltb_ge in Hcount].
  all: split; [intros H; try discriminate H; repeat split; auto
              |intros (H1 & H2 & H3); try discriminate; try lia; auto].
Qed.

(** X2. Attachments are always credited: with at least one attachment the
    list carries the supporting-documents item when no proof keyword is in
    the missing-items text, and the some-documents item otherwise; without
    attachments it carries neither. *)
Theorem attachments_always_credited (email : email_data) (missing : string) :
  (In (documents_item (attachment_count email))
      (identify_satisfied_requirements email missing)
   <-> 0 < attachment_count email
       /\ any_in proof_keywords (lower missing) = false)
  /\ (In (some_documents_item (attachment_count email))
         (identify_satisfied_requirements email missing)
      <-> 0 < attachment_count email
          /\ any_in proof_keywords (lower missing) = true).
Proof.
  unfold identify_satisfied_requirements.
  destruct (any_in reason_keywords (lower missing));
    destruct (any_in amount_keywords (lower missing));
    destruct (0 <? attachment_count email) eqn:Hcount;
    destruct (any_in proof_keywords (lower missing));
    cbn [negb app].
  all: first [apply Nat.ltb_lt in Hcount | apply Nat.ltb_ge in Hcount].
  all: split; split.
  all: try (intros [_ H]; discriminate H).
  all: try (intros [H _]; lia).
  all: try (intros _; split; [assumption|reflexivity]).
  all: try (intros _; simpl; tauto).
  all: intros H; exfalso; simpl in H;
    repeat (destruct H as [H|H]; [discriminate H|]); exact H.
Qed.

(** X3. The missing-items formatter drops the blank lines and keeps the
    others, in order, stripped, each with a bullet put in front when it
    lacks one; every line it keeps starts with a dash. *)
Theorem format_lines_bullets (lines : list string) :
  format_lines lines
  = map bulleted
      (filter (fun line => negb (String.eqb line "")) (map strip lines))
  /\ Forall (fun line => startswith line "-" = true) (format_lines lines).
Proof.
  induction lines as [|line rest [IHlines IHdash]]; simpl;
    [split; [reflexivity|constructor]|].
  destruct (String.eqb (strip line) "") eqn:Hempty; simpl.
  - rewrite Hempty. simpl. split; [exact IHlines|exact IHdash].
  - unfold bulleted at 1.
    destruct (startswith (strip line) "-") eqn:Hdash; simpl.
    + rewrite Hempty. simpl.
      split; [now rewrite IHlines|constructor; [exact Hdash|exact IHdash]].
    + split; [now rewrite IHlines|constructor; [reflexivity|exact IHdash]].
Qed.

Lemma satisfied_without_attachments (email : email_data) (missing : string) :
  attachment_count email = 0 ->
  (4 <=? length (identify_satisfied_requirements email missing)) = false.
Proof.
  intros Hcount. unfold identify_satisfied_requirements. rewrite Hcount.
  destruct (any_in reason_keywords (lower missing));
    destruct (any_in amount_keywords (lower missing)); reflexivity.
Qed.

(** X4. An email without attachments is never promoted by the failsafe:
    the parser gives COMPLETED for it exactly when the leftmost status
    marker of the reply reads COMPLETED. *)
Theorem no_attachment_no_override
  (llm_response : string) (email : email_data) (a : assessment) :
  attachment_count email = 0 ->
  parse_fulfillment_response E llm_response email = Some a ->
  (a_status a = COMPLETED
   <-> search status_at llm_response = Some COMPLETED).
Proof.
  intros Hcount Hparse.
  rewrite (settle_status_of_parse E _ _ _ Hparse).
  unfold settle.
  rewrite (satisfied_without_attachments email _ Hcount).
  destruct (search status_at llm_response) as [[|]|]; simpl;
    split; intros H; try reflexivity; discriminate H.
Qed.

Lemma satisfied_for_default_missing (email : email_data) :
  0 < attachment_count email ->
  identify_satisfied_requirements email default_missing
  = [email_item; reason_item; amount_item;
     documents_item (attachment_count email)].
Proof.
  intros Hcount. apply Nat.ltb_lt in Hcount.
  unfold identify_satisfied_requirements. rewrite Hcount.
  replace (any_in reason_keywords (lower default_missing)) with false
    by (vm_compute; reflexivity).
  replace (any_in amount_keywords (lower default_missing)) with false
    by (vm_compute; reflexivity).
  replace (any_in proof_keywords (lower default_missing)) with false
    by (vm_compute; reflexivity).
  reflexivity.
Qed.

(** X5. A reply without a MISSING_ITEMS block is read as complete when the
    email has an attachment: whether its status marker reads PENDING or is
    absent, the parser returns COMPLETED, with no missing items and no
    satisfied items. *)
Theorem pending_without_list_is_completed
  (llm_response : string) (email : email_data) :
  search status_at llm_response <> Some COMPLETED ->
  search missing_at llm_response = None ->
  0 < attachment_count email ->
  parse_fulfillment_response E llm_response email =
  Some {| a_status := COMPLETED; a_missing_items := "";
          a_satisfied_items := []; a_email_content := "" |}.
Proof.
  intros Hstated Hblock Hcount.
  assert (Hsettle : settle llm_response email = (COMPLETED, "", [])).
  { unfold settle, extract_missing_items. rewrite Hblock.
    rewrite (satisfied_for_default_missing email Hcount).
    destruct (search status_at llm_response) as [[|]|];
      [now elim Hstated|reflexivity|reflexivity]. }
  unfold parse_fulfillment_response. now rewrite Hsettle.
Qed.

(** X6. Without the template of the notification the parser never fails:
    it returns a result for every reply, and when the status is PENDING the
    body it wrote lists the missing items. *)
Theorem parse_total_without_template
  (llm_response : string) (email : email_data) :
  prompt_file E "fulfillment_pending_email.txt" = None ->
  exists a,
    parse_fulfillment_response E llm_response email = Some a
    /\ (a_status a = PENDING ->
        contains (a_missing_items a) (a_email_content a) = true).
Proof.
  intros Hfile. unfold parse_fulfillment_response.
  destruct (settle llm_response email) as [[[|] missing] satisfied].
  - eexists. split; [reflexivity|]. discriminate.
  - unfold pending_email_content, load_prompt_file. rewrite Hfile. simpl.
    eexists. split; [reflexivity|]. intros _.
    cbn [a_missing_items a_email_content].
    apply (contains_after missing
             ("Dear Customer," ++ nl ++ nl
              ++ "Thank you for submitting your insurance claim. We have reviewed your submission:"
              ++ nl ++ nl ++ "REQUIREMENTS SATISFIED: ")
             _ (nl ++ nl ++ "MISSING REQUIREMENTS: ")).
Qed.

(** X7. Any run of three digits in the body counts as a monetary value
    for the scan of the body, whatever surrounds it. *)
Theorem three_digits_count_as_amount
  (email : email_data) (before after : string) (a b c : ascii) :
  content email = before ++ String a (String b (String c after)) ->
  isdigit a = true -> isdigit b = true -> isdigit c = true ->
  has_monetary_value email = true.
Proof.
  intros Hbody Ha Hb Hc. unfold has_monetary_value.
  apply existsb_exists. exists grouped_number. split.
  - unfold monetary_patterns. simpl. tauto.
  - rewrite Hbody, lower_app. simpl.
    apply isdigit_amount in Ha, Hb, Hc.
    rewrite !lower_char_amount by assumption.
    apply re_found_app. simpl. now rewrite Ha, Hb, Hc.
Qed.

End FurtherAssessment.

(** ** The classifier *)

Section FurtherClassifier.

Import Classifier.

Variable E : environment.

Lemma keyword_matches_lowered (email : email_data) (keyword : string) :
  keyword_matches (lowered email) keyword = keyword_matches email keyword.
Proof.
  unfold keyword_matches, lowered. simpl. now rewrite !lower_idempotent.
Qed.

(** X8. The keyword fallback does not see the case of the letters: it
    gives the same result for an email and for the email with subject and
    body in lower case. *)
Theorem keyword_fallback_ignores_case (email : email_data) :
  _fallback_insurance_check (lowered email)
  = _fallback_insurance_check email.
Proof.
  unfold _fallback_insurance_check, keyword_count.
  rewrite (filter_ext (keyword_matches (lowered email))
             (keyword_matches email) (keyword_matches_lowered email)).
  reflexivity.
Qed.

Lemma find_char_get (c : ascii) (s : string) (i : nat) :
  find_char c s = Some i -> String.get i s = Some c.
Proof.
  revert i. induction s as [|d t IH]; intros i; simpl; [discriminate|].
  destruct (Ascii.eqb d c) eqn:Heq.
  - intros [= <-]. apply Ascii.eqb_eq in Heq. now subst.
  - destruct (find_char c t) as [j|]; simpl; [|discriminate].
    intros [= <-]. simpl. now apply IH.
Qed.

Lemma rfind_char_get (c : ascii) (s : string) (i : nat) :
  rfind_char c s = Some i -> String.get i s = Some c.
Proof.
  revert i. induction s as [|d t IH]; intros i; simpl; [discriminate|].
  destruct (rfind_char c t) as [j|].
  - intros [= <-]. simpl. now apply IH.
  - destruct (Ascii.eqb d c) eqn:Heq; [|discriminate].
    intros [= <-]. apply Ascii.eqb_eq in Heq. now subst.
Qed.

Lemma get_some_lt (s : string) (i : nat) (c : ascii) :
  String.get i s = Some c -> i < String.length s.
Proof.
  revert i. induction s as [|d t IH]; intros i; simpl; [discriminate|].
  destruct i as [|i]; [lia|]. intros H. apply IH in H. lia.
Qed.

Lemma length_substring (s : string) (n m : nat) :
  n + m <= String.length s -> String.length (substring n m s) = m.
Proof.
  revert n m. induction s as [|d t IH]; intros n m; simpl.
  - intros H. assert (n = 0) by lia. assert (m = 0) by lia. now subst.
  - destruct n as [|n]; destruct m as [|m]; simpl; intros H;
      try reflexivity.
    + rewrite (IH 0 m) by lia. reflexivity.
    + apply (IH n 0). lia.
    + apply (IH n (S m)). lia.
Qed.

Lemma take_drop (n : nat) (s : string) : take n s ++ drop n s = s.
Proof.
  revert n. induction s as [|c t IH]; intros [|n]; simpl; try reflexivity.
  now rewrite IH.
Qed.

Lemma substring_take_drop (n m : nat) (s : string) :
  substring n m s = take m (drop n s).
Proof.
  revert n m. induction s as [|c t IH]; intros [|n] [|m]; simpl;
    try reflexivity.
  - now rewrite (IH 0 m).
  - apply IH.
  - apply IH.
Qed.

Lemma drop_drop (n m : nat) (s : string) :
  drop m (drop n s) = drop (n + m) s.
Proof.
  revert n m. induction s as [|c t IH]; intros [|n] [|m]; simpl;
    try reflexivity.
  - apply (IH n 0).
  - apply (IH n (S m)).
Qed.

Lemma get_take (k n : nat) (s : string) (c : ascii) :
  String.get k (take n s) = Some c -> k < n /\ String.get k s = Some c.
Proof.
  revert k n. induction s as [|d t IH]; intros k [|n]; simpl;
    try discriminate.
  destruct k as [|k]; [intros H; split; [lia|exact H]|].
  intros H. apply IH in H as [Hlt Hget]. split; [lia|exact Hget].
Qed.

Lemma get_drop (k n : nat) (s : string) :
  String.get k (drop n s) = String.get (n + k) s.
Proof.
  revert k n. induction s as [|d t IH]; intros k [|n]; simpl;
    try reflexivity.
  apply IH.
Qed.

Lemma find_char_first (c : ascii) (s : string) (i k : nat) :
  find_char c s = Some i -> k < i -> String.get k s <> Some c.
Proof.
  revert i k. induction s as [|d t IH]; intros i k; simpl; [discriminate|].
  destruct (Ascii.eqb d c) eqn:Heq.
  - intros [= <-] Hlt. lia.
  - destruct (find_char c t) as [j|] eqn:Hfind; simpl; [|discriminate].
    intros [= <-] Hlt. destruct k as [|k].
    + intros [= ->]. now rewrite Ascii.eqb_refl in Heq.
    + apply (IH j k eq_refl). lia.
Qed.

Lemma rfind_char_last (c : ascii) (s : string) (j k : nat) :
  rfind_char c s = Some j -> j < k -> String.get k s <> Some c.
Proof.
  revert j k. induction s as [|d t IH]; intros j k; simpl; [discriminate|].
  destruct (rfind_char c t) as [i|] eqn:Hfind.
  - intros [= <-] Hlt. destruct k as [|k]; [lia|].
    apply (IH i k eq_refl). lia.
  - destruct (Ascii.eqb d c); [|discriminate].
    intros [= <-] Hlt. destruct k as [|k]; [lia|].
    clear Hlt IH. revert k.
    induction t as [|e u IHu]; intros k; simpl; [discriminate|].
    simpl in Hfind. destruct (rfind_char c u) as [i|]; [discriminate|].
    destruct (Ascii.eqb e c) eqn:He; [discriminate|].
    destruct k as [|k].
    + intros [= ->]. now rewrite Ascii.eqb_refl in He.
    + now apply IHu.
Qed.

(** X9. The span handed to the JSON parser runs from the first opening
    brace of the reply to its last closing brace: the reply is the span
    between a text without opening brace and a text without closing brace,
    and the span starts with the opening and ends with the closing
    brace. *)
Theorem json_span_is_braced (response_content span : string) :
  json_span response_content = Some span ->
  exists before after,
    response_content = before ++ span ++ after
    /\ ~ occurs "{" before
    /\ ~ occurs "}" after
    /\ first_char span = Some "{"%char
    /\ last_char span = Some "}"%char.
Proof.
  unfold json_span.
  destruct (find_char "{" response_content) as [i|] eqn:Hfirst;
    [|discriminate].
  destruct (rfind_char "}" response_content) as [j|] eqn:Hlast.
  - destruct (i <? j + 1) eqn:Hlt; [|discriminate].
    intros [= <-]. apply Nat.ltb_lt in Hlt.
    pose proof (find_char_get _ _ _ Hfirst) as Hopen.
    pose proof (rfind_char_get _ _ _ Hlast) as Hclose.
    pose proof (get_some_lt _ _ _ Hclose) as Hj.
    exists (take i response_content), (drop (j + 1) response_content).
    split; [|split; [|split; [|split]]].
    + rewrite substring_take_drop.
      replace (j + 1) with (i + (j + 1 - i)) at 2 by lia.
      rewrite <- drop_drop, take_drop, take_drop. reflexivity.
    + intros [k Hk]. apply get_take in Hk as [Hki Hk].
      now apply (find_char_first _ _ _ _ Hfirst Hki).
    + intros [k Hk]. rewrite get_drop in Hk.
      apply (rfind_char_last _ _ _ (j + 1 + k) Hlast); [lia|exact Hk].
    + unfold first_char. rewrite substring_correct1 by lia. exact Hopen.
    + unfold last_char. rewrite length_substring by lia.
      replace (j + 1 - i) with (S (j - i)) by lia.
      rewrite substring_correct1 by lia.
      replace (j - i + i) with j by lia. exact Hclose.
  - destruct (i <? 0) eqn:Hlt; [|discriminate].
    apply Nat.ltb_lt in Hlt. lia.
Qed.

Lemma text_fallback_well_formed (response_content : string) :
  well_formed (_parse_llm_response_fallback response_content) = true.
Proof.
  unfold _parse_llm_response_fallback.
  destruct (contains "auto" _ || contains "car" _);
    [|destruct (contains "health" _ || contains "medical" _);
      [|destruct (contains "home" _ || contains "property" _)]];
    reflexivity.
Qed.

(** X10. Whenever the reply of the backend is not handed over as parsed
    JSON (the call raised, the content is not a text, no span was found,
    or the span is not JSON), the classifier returns a well-formed
    result. *)
Theorem unparsed_reply_well_formed
  (email : email_data) (outcome : llm_outcome) :
  (forall text span,
     outcome = LLMReply (StrContent text) ->
     json_span text = Some span -> json_loads E span = None) ->
  well_formed (filter_result E email outcome) = true.
Proof.
  intros Hjson. unfold filter_result.
  destruct outcome as [|[text|repr truth]].
  - reflexivity.
  - destruct (json_span text) as [span|] eqn:Hspan.
    + rewrite (Hjson text span eq_refl Hspan). reflexivity.
    + apply text_fallback_well_formed.
  - apply text_fallback_well_formed.
Qed.

End FurtherClassifier.

(** ** The fulfillment engine *)

Section Preservation.

Variable R : world -> world -> Prop.
Hypothesis R_refl : forall w, R w w.
Hypothesis R_trans : forall w1 w2 w3, R w1 w2 -> R w2 w3 -> R w1 w3.

Lemma preserves_ret {A : Type} (a : A) : preserves R (ret a).
Proof. intros w. apply R_refl. Qed.

Lemma preserves_get {A : Type} (field : world -> A) :
  preserves R (get field).
Proof. intros w. apply R_refl. Qed.

Lemma preserves_bind {A B : Type} (m : M A) (k : A -> M B) :
  preserves R m -> (forall a, preserves R (k a)) -> preserves R (bind m k).
Proof.
  intros Hm Hk w. unfold bind.
  specialize (Hm w). destruct (m w) as [a w1]. simpl in Hm.
  eapply R_trans; [exact Hm|apply Hk].
Qed.

End Preservation.

Lemma same_disk_refl (w : world) : same_disk w w.
Proof. repeat split. Qed.

Lemma same_disk_trans (w1 w2 w3 : world) :
  same_disk w1 w2 -> same_disk w2 w3 -> same_disk w1 w3.
Proof.
  intros (H1 & H2 & H3) (H4 & H5 & H6). repeat split; congruence.
Qed.

Lemma only_removes_refl (paths folders : list string) (w : world) :
  only_removes paths folders w w.
Proof. repeat split; auto. Qed.

Lemma only_removes_trans (paths folders : list string) (w1 w2 w3 : world) :
  only_removes paths folders w1 w2 -> only_removes paths folders w2 w3 ->
  only_removes paths folders w1 w3.
Proof.
  intros (H1 & H2 & H3 & H4 & H5) (H6 & H7 & H8 & H9 & H10).
  repeat split; auto; congruence.
Qed.

Lemma only_removes_of_same_disk (paths folders : list string)
  (w w' : world) :
  same_disk w w' -> only_removes paths folders w w'.
Proof.
  intros (H1 & H2 & H3). unfold only_removes. rewrite H1, H2, H3.
  repeat split; auto.
Qed.

Ltac preserves_step refl trans :=
  lazymatch goal with
  | |- preserves _ (bind _ _) =>
      apply (preserves_bind _ trans); [|intros ?]
  | |- preserves _ (ret _) => apply (preserves_ret _ refl)
  | |- preserves _ (get _) => apply (preserves_get _ refl)
  | |- preserves _ (if ?b then _ else _) => destruct b
  | |- preserves _ (match ?x with _ => _ end) => destruct x
  | |- preserves _ _ => solve [auto with keeps | intros ?; repeat split]
  end.

Ltac same_disk_auto :=
  cbv zeta; repeat (preserves_step same_disk_refl same_disk_trans; cbv zeta).

Section FurtherFulfillment.

Import Fulfillment.

Variable E : environment.

#[local] Arguments api_data : simpl never.

(** *** What the archive upload leaves alone *)

Lemma same_disk_upload_file (name : string) :
  preserves same_disk (upload_file E name).
Proof. unfold upload_file. same_disk_auto. Qed.

Hint Resolve same_disk_upload_file : keeps.

Lemma same_disk_upload_attachments (paths : list string) :
  preserves same_disk (upload_attachments E paths).
Proof. induction paths as [|p rest IH]; simpl; same_disk_auto. Qed.

Hint Resolve same_disk_upload_attachments : keeps.

Lemma same_disk_upload_complete_email (email : email_data) :
  preserves same_disk (upload_complete_email E email).
Proof. unfold upload_complete_email. same_disk_auto. Qed.

Hint Resolve same_disk_upload_complete_email : keeps.

Lemma same_disk_upload_to_mongodb (email : email_data) :
  preserves same_disk (upload_to_mongodb_for_completed_fulfillment E email).
Proof.
  unfold upload_to_mongodb_for_completed_fulfillment. same_disk_auto.
Qed.

(** *** The events of a completed claim *)

Lemma completion_add_fulfillment (data : fulfillment_request) :
  keeps completion_fp (add_fulfillment E data).
Proof. unfold add_fulfillment. keeps_auto. Qed.

Hint Resolve completion_add_fulfillment : keeps.

Lemma completion_save (email : email_data) (status missing : string)
  (result : option mongodb_result) :
  keeps completion_fp
    (save_to_fulfillment_table E email status missing result).
Proof. unfold save_to_fulfillment_table. keeps_auto. Qed.

Lemma completion_upload_file (name : string) :
  keeps completion_fp (upload_file E name).
Proof. unfold upload_file. keeps_auto. Qed.

Hint Resolve completion_save completion_upload_file : keeps.

Lemma completion_upload_attachments (paths : list string) :
  keeps completion_fp (upload_attachments E paths).
Proof. induction paths as [|p rest IH]; simpl; keeps_auto. Qed.

Hint Resolve completion_upload_attachments : keeps.

Lemma completion_upload_complete_email (email : email_data) :
  keeps completion_fp (upload_complete_email E email).
Proof. unfold upload_complete_email. keeps_auto. Qed.

Hint Resolve completion_upload_complete_email : keeps.

Lemma completion_upload_to_mongodb (email : email_data) :
  keeps completion_fp (upload_to_mongodb_for_completed_fulfillment E email).
Proof. unfold upload_to_mongodb_for_completed_fulfillment. keeps_auto. Qed.

Lemma completion_remove_attachments (paths : list string) :
  keeps completion_fp (remove_attachments E paths).
Proof. induction paths as [|p rest IH]; simpl; keeps_auto. Qed.

Hint Resolve completion_upload_to_mongodb completion_remove_attachments
  : keeps.

Lemma completion_cleanup (email : email_data) :
  keeps completion_fp (cleanup_local_files_after_mongodb_upload E email).
Proof. unfold cleanup_local_files_after_mongodb_upload. keeps_auto. Qed.

Hint Resolve completion_cleanup : keeps.

Lemma completion_complete_claim (email : email_data) :
  keeps completion_fp (complete_claim E email).
Proof. unfold complete_claim. keeps_auto. Qed.

(** X11. The text stored with a record is bounded: at most 1000 characters
    for a record saved without archive result, and for a completed record
    with archive result the subject, 19 characters of labels and at most
    800 characters of the body. *)
Theorem mail_content_is_bounded
  (email : email_data) (status missing : string)
  (result : option mongodb_result) :
  (result = None \/ String.eqb status "completed" = false ->
   String.length (fr_mail_content (api_data email status missing result))
   <= 1000)
  /\ (result <> None -> String.eqb status "completed" = true ->
      String.length (fr_mail_content (api_data email status missing result))
      <= String.length (subject email) + 819).
Proof.
  unfold api_data. split.
  - intros [-> | Hstatus].
    + cbn -[take]. apply length_take.
    + rewrite Hstatus. destruct result; cbn -[take]; apply length_take.
  - intros Hresult Hstatus. rewrite Hstatus.
    destruct result as [r|]; [|now elim Hresult]. cbn -[take append].
    rewrite !string_length_app. cbn -[take].
    pose proof (length_take 800 (content email)). lia.
Qed.



(** X13. Without the system prompt of the assessment (the file is
    unreadable or blank) the claim is dropped before anything happens: the
    backend is not called, nothing is stored, no mail is sent, and the
    operation reports failure. *)
Theorem missing_prompt_drops_claim (email : email_data) (w : world) :
  load_prompt_file E "fulfillment_system_prompt.txt" = None
  \/ load_prompt_file E "fulfillment_system_prompt.txt" = Some "" ->
  process_email_fulfillment E email w = (RFalse, w).
Proof.
  intros Hprompt.
  unfold process_email_fulfillment, assess_and_parse,
    assess_fulfillment_with_llm, bind.
  destruct Hprompt as [-> | ->]; reflexivity.
Qed.

(** X14. When the call of the assessment raises, or the reply is an empty
    text, the claim is dropped: the operation reports failure after the
    call, nothing is stored and no mail is sent. *)
Theorem failed_assessment_drops_claim
  (email : email_data) (w : world) (prompt : string) :
  load_prompt_file E "fulfillment_system_prompt.txt" = Some prompt ->
  prompt <> "" ->
  llm_invoke E (clock w) = LLMRaises
  \/ llm_invoke E (clock w) = LLMReply (StrContent "") ->
  fst (process_email_fulfillment E email w) = RFalse
  /\ same_disk w (snd (process_email_fulfillment E email w))
  /\ logged w (snd (process_email_fulfillment E email w))
       [AssessmentCall (claim_id email) (llm_invoke E (clock w))].
Proof.
  intros Hprompt Hnonempty Hcall.
  unfold process_email_fulfillment, assess_and_parse,
    assess_fulfillment_with_llm, bind, logged.
  rewrite Hprompt. destruct prompt as [|c rest]; [now elim Hnonempty|].
  simpl. destruct Hcall as [-> | ->]; simpl; repeat split.
Qed.

(** X15. When the assessment is PENDING and formatting the template of
    the notification raises, the claim is dropped after the call of the
    assessment: the operation reports failure, no record is stored and no
    mail is sent. *)
Theorem unformattable_template_drops_claim
  (email : email_data) (w : world) (prompt text missing : string)
  (satisfied : list string) :
  load_prompt_file E "fulfillment_system_prompt.txt" = Some prompt ->
  prompt <> "" ->
  llm_invoke E (clock w) = LLMReply (StrContent text) ->
  text <> "" ->
  Assessment.settle text email = (PENDING, missing, satisfied) ->
  Assessment.pending_email_content E satisfied missing = None ->
  fst (process_email_fulfillment E email w) = RFalse
  /\ same_disk w (snd (process_email_fulfillment E email w))
  /\ logged w (snd (process_email_fulfillment E email w))
       [AssessmentCall (claim_id email) (LLMReply (StrContent text))].
Proof.
  intros Hprompt Hnonempty Hcall Htext Hsettle Hformat.
  unfold process_email_fulfillment, assess_and_parse,
    assess_fulfillment_with_llm, bind, logged.
  rewrite Hprompt. destruct prompt as [|c rest]; [now elim Hnonempty|].
  simpl. rewrite Hcall. simpl.
  destruct text as [|d more]; [now elim Htext|]. simpl.
  unfold Assessment.parse_fulfillment_response.
  rewrite Hsettle, Hformat. simpl. repeat split.
Qed.

(** *** The local clean-up *)

Lemma only_removes_weaken (paths paths' folders folders' : list string)
  (w w' : world) :
  incl paths paths' -> incl folders folders' ->
  only_removes paths folders w w' -> only_removes paths' folders' w w'.
Proof.
  intros Hp Hf (H1 & H2 & H3 & H4 & H5).
  repeat split; auto.
Qed.

Lemma remove_attachments_step (a : string) (rest : list string)
  (w : world) :
  exists w1,
    remove_attachments E (a :: rest) w = remove_attachments E rest w1
    /\ only_removes [a] [] w w1
    /\ (os_remove E (clock w) a = true -> ~ In a (files w1)).
Proof.
  simpl. unfold bind, get, now, emit, set_files, ret. simpl.
  destruct (path_exists w a) eqn:Hexists.
  - destruct (os_remove E (clock w) a) eqn:Hos; simpl.
    + destruct (in_list a (files w)) eqn:Hin; simpl.
      * eexists. split; [reflexivity|]. simpl. split.
        -- unfold only_removes. simpl. repeat split; auto.
           ++ intros p Hp. now apply in_remove_path in Hp.
           ++ intros p Hp Hnot. apply in_remove_path. split; [exact Hp|].
              intros ->. apply Hnot. now left.
        -- intros _ Hp. apply in_remove_path in Hp. now destruct Hp.
      * eexists. split; [reflexivity|]. simpl. split.
        -- apply only_removes_of_same_disk. repeat split.
        -- intros _ Hp. apply in_list_iff in Hp. congruence.
    + eexists. split; [reflexivity|]. split.
      * apply only_removes_of_same_disk. repeat split.
      * discriminate.
  - eexists. split; [reflexivity|]. split.
    + apply only_removes_refl.
    + intros _ Hp. unfold path_exists in Hexists.
      apply orb_false_iff in Hexists as [Hfiles _].
      apply in_list_iff in Hp. congruence.
Qed.

Lemma remove_attachments_frame (paths : list string) (w : world) :
  only_removes paths [] w (snd (remove_attachments E paths w))
  /\ ((forall t p, os_remove E t p = true) ->
      forall p, In p paths ->
                ~ In p (files (snd (remove_attachments E paths w)))).
Proof.
  revert w. induction paths as [|a rest IH]; intros w.
  - split; [apply only_removes_refl|intros _ p []].
  - destruct (remove_attachments_step a rest w) as (w1 & -> & Hstep & Hgone).
    destruct (IH w1) as [Hframe Hall]. split.
    + apply (only_removes_trans _ _ w w1).
      * apply (only_removes_weaken [a] _ [] _); auto.
        -- intros p [<-|[]]. now left.
        -- apply incl_refl.
      * apply (only_removes_weaken rest _ [] _); auto.
        -- intros p Hp. now right.
        -- apply incl_refl.
    + intros Hos p [<-|Hp].
      * intros Hin. apply (Hgone (Hos _ _)).
        destruct Hframe as (_ & Hsub & _). now apply Hsub.
      * now apply Hall.
Qed.

Lemma cleanup_folder_step (email : email_data) (w : world) :
  files (snd (cleanup_local_files_after_mongodb_upload E email w))
  = files (snd (remove_attachments E (attachment_paths email) w))
  /\ fulfillment (snd (cleanup_local_files_after_mongodb_upload E email w))
     = fulfillment (snd (remove_attachments E (attachment_paths email) w))
  /\ (forall d,
        In d (dirs (snd (cleanup_local_files_after_mongodb_upload E email w)))
        -> In d (dirs (snd (remove_attachments E (attachment_paths email) w))))
  /\ (forall d,
        In d (dirs (snd (remove_attachments E (attachment_paths email) w)))
        -> ~ In d (claim_folders email)
        -> In d (dirs (snd (cleanup_local_files_after_mongodb_upload
                              E email w)))).
Proof.
  unfold cleanup_local_files_after_mongodb_upload, claim_folders, bind.
  destruct (remove_attachments E (attachment_paths email) w) as [[] w2].
  cbn [snd].
  destruct (attachment_paths email) as [|first rest]; [repeat split; auto|].
  unfold get, now, emit, set_dirs, ret. simpl.
  destruct (in_list (dirname first) (dirs w2)
            && dir_is_empty w2 (dirname first)); simpl;
    [destruct (os_remove E (clock w2) (dirname first)); simpl|];
    repeat split; auto.
  - intros d Hd. now apply in_remove_path in Hd.
  - intros d Hd Hnot. apply in_remove_path. split; [exact Hd|].
    intros ->. apply Hnot. now left.
Qed.

Lemma cleanup_frame (email : email_data) (w : world) :
  only_removes (attachment_paths email) (claim_folders email) w
    (snd (cleanup_local_files_after_mongodb_upload E email w))
  /\ ((forall t p, os_remove E t p = true) ->
      forall p, In p (attachment_paths email) ->
                ~ In p (files (snd (cleanup_local_files_after_mongodb_upload
                                      E email w)))).
Proof.
  destruct (remove_attachments_frame (attachment_paths email) w)
    as [Hframe Hall].
  destruct (cleanup_folder_step email w) as (Hf & Hs & Hd1 & Hd2).
  split.
  - apply (only_removes_trans _ _ w
             (snd (remove_attachments E (attachment_paths email) w))).
    + apply (only_removes_weaken (attachment_paths email) _ [] _); auto.
      * apply incl_refl.
      * intros d [].
    + unfold only_removes. rewrite Hf, Hs. repeat split; auto.
  - intros Hos p Hp. rewrite Hf. now apply Hall.
Qed.

(** X16. The local clean-up only removes what belongs to the claim: every
    file that is not one of the attachments of the email stays, every
    directory other than the folder of the first attachment stays, nothing
    is created, and the fulfillment collection is not touched. *)
Theorem cleanup_only_removes_attachments (email : email_data) (w : world) :
  only_removes (attachment_paths email) (claim_folders email) w
    (snd (cleanup_local_files_after_mongodb_upload E email w)).
Proof.
  destruct (remove_attachments_frame (attachment_paths email) w)
    as [Hframe _].
  destruct (cleanup_folder_step email w) as (Hf & Hs & Hd1 & Hd2).
  apply (only_removes_trans _ _ w
           (snd (remove_attachments E (attachment_paths email) w))).
  - apply (only_removes_weaken (attachment_paths email) _ [] _); auto.
    + apply incl_refl.
    + intros d [].
  - unfold only_removes. rewrite Hf, Hs. repeat split; auto.
Qed.

(** X17. When the file system lets every removal through, no attachment
    of the email is left among the local files after the clean-up. *)
Theorem cleanup_removes_every_attachment (email : email_data) (w : world) :
  (forall t p, os_remove E t p = true) ->
  forall p, In p (attachment_paths email) ->
            ~ In p (files (snd (cleanup_local_files_after_mongodb_upload
                                  E email w))).
Proof.
  intros Hos p Hp.
  destruct (remove_attachments_frame (attachment_paths email) w)
    as [_ Hall].
  destruct (cleanup_folder_step email w) as (Hf & _).
  rewrite Hf. now apply Hall.
Qed.

(** *** Completed claims on the paths beside the archive failure *)

Lemma complete_claim_with_archive
  (email : email_data) (w : world) (r : mongodb_result) :
  fst (upload_to_mongodb_for_completed_fulfillment E email w) = Some r ->
  complete_claim E email w =
  match fst (save_to_fulfillment_table E email "completed" "" (Some r)
               (snd (upload_to_mongodb_for_completed_fulfillment E email w)))
  with
  | Some id =>
      (RId id,
       snd (cleanup_local_files_after_mongodb_upload E email
              (snd (save_to_fulfillment_table E email "completed" ""
                      (Some r)
                      (snd (upload_to_mongodb_for_completed_fulfillment
                              E email w))))))
  | None =>
      (RNone,
       snd (save_to_fulfillment_table E email "completed" "" (Some r)
              (snd (upload_to_mongodb_for_completed_fulfillment E email w))))
  end.
Proof.
  intros Hsome. unfold complete_claim. unfold bind at 1.
  destruct (upload_to_mongodb_for_completed_fulfillment E email w)
    as [result w1]. simpl in Hsome. subst result. cbn [fst snd].
  unfold bind at 1.
  destruct (save_to_fulfillment_table E email "completed" "" (Some r) w1)
    as [[id|] w2]; cbn [fst snd]; [|reflexivity].
  unfold bind.
  destruct (cleanup_local_files_after_mongodb_upload E email w2).
  reflexivity.
Qed.

(** X18. A completed claim whose record the store does not accept keeps
    its local copies: after a successful archive upload and a refused
    record, the operation reports failure and the local files, the local
    directories and the fulfillment collection are as before. *)
Theorem unsaved_completed_claim_keeps_files
  (email : email_data) (w : world) (r : mongodb_result) :
  fst (upload_to_mongodb_for_completed_fulfillment E email w) = Some r ->
  fst (save_to_fulfillment_table E email "completed" "" (Some r)
         (snd (upload_to_mongodb_for_completed_fulfillment E email w)))
  = None ->
  fst (complete_claim E email w) = RNone
  /\ same_disk w (snd (complete_claim E email w)).
Proof.
  intros Harchive Hsave.
  rewrite (complete_claim_with_archive email w r Harchive), Hsave.
  split; [reflexivity|]. cbn [snd].
  destruct (save_to_fulfillment_table_run E email "completed" "" (Some r)
              (snd (upload_to_mongodb_for_completed_fulfillment E email w)))
    as (reply & _ & Hfiles & Hdirs & Hreply).
  apply (same_disk_trans w
           (snd (upload_to_mongodb_for_completed_fulfillment E email w))).
  - apply same_disk_upload_to_mongodb.
  - repeat split; try assumption.
    destruct reply as [|code [id|]].
    + now destruct Hreply.
    + destruct Hreply as [Hid _]. rewrite Hsave in Hid. discriminate Hid.
    + now destruct Hreply.
Qed.

Lemma upload_attachments_all_fail (paths : list string) (w : world) :
  (forall t, gridfs_put E t = None) ->
  fst (upload_attachments E paths w) = [].
Proof.
  intros Hput. revert w. induction paths as [|p rest IH]; intros w;
    [reflexivity|].
  simpl. unfold bind at 1. unfold get at 1. cbn [fst snd].
  destruct (in_list p (files w)).
  - unfold bind at 1. unfold upload_file, bind, now, emit. simpl.
    rewrite Hput. simpl.
    match goal with
    | |- context [upload_attachments E rest ?w0] =>
        specialize (IH w0); destruct (upload_attachments E rest w0)
    end.
    simpl in *. exact IH.
  - unfold bind, ret. simpl.
    specialize (IH w). destruct (upload_attachments E rest w).
    simpl in *. exact IH.
Qed.

Lemma upload_with_failing_puts (email : email_data) (w : world) :
  mongo_client w = true ->
  (forall t, gridfs_put E t = None) ->
  exists stamp,
    fst (upload_to_mongodb_for_completed_fulfillment E email w)
    = Some {| upload_timestamp := stamp; mr_mail_content := None;
              mr_attachments := [] |}.
Proof.
  intros Hclient Hput.
  unfold upload_to_mongodb_for_completed_fulfillment.
  unfold bind at 1. unfold get at 1. cbn [fst snd]. rewrite Hclient.
  unfold upload_complete_email, bind at 1 2. unfold now at 1. cbn [fst snd].
  unfold upload_file, bind at 1 2, now, emit. simpl. rewrite Hput. simpl.
  unfold bind.
  match goal with
  | |- context [upload_attachments E ?ps ?w0] =>
      pose proof (upload_attachments_all_fail ps w0 Hput) as Hnone;
      destruct (upload_attachments E ps w0) as [atts w1]
  end.
  simpl in *. subst atts. eexists. reflexivity.
Qed.

Lemma save_accepted (email : email_data) (status missing : string)
  (result : option mongodb_result) (w : world) :
  (forall t, fulfillment_api_up E t = true) ->
  email_str_valid E (sender_email email) = true ->
  (forall t, db_insert_one E t <> None) ->
  exists id created,
    fst (save_to_fulfillment_table E email status missing result w)
    = Some id
    /\ fulfillment
         (snd (save_to_fulfillment_table E email status missing result w))
       = (fulfillment w
          ++ [request_data (api_data email status missing result)
                id created])%list.
Proof.
  intros Hup Hvalid Hinsert.
  unfold save_to_fulfillment_table, add_fulfillment, bind, now, emit, get.
  simpl. rewrite Hup.
  replace (user_mail (api_data email status missing result))
    with (sender_email email)
    by (unfold api_data; destruct result;
        destruct (String.eqb status "completed"); reflexivity).
  rewrite Hvalid. simpl.
  destruct (db_insert_one E (S (clock w))) as [id|] eqn:Hid;
    [|now elim (Hinsert (S (clock w)))].
  simpl. do 2 eexists. split; reflexivity.
Qed.

(** X19. An archive upload in which no blob could be stored still counts
    as a result: when the client of the archive is set and every upload
    fails, a store that accepts the record gets a completed record without
    any file reference, the operation reports success, and, the file system
    letting the removals through, every local attachment is deleted. *)
Theorem empty_archive_still_deletes_files (email : email_data) (w : world) :
  mongo_client w = true ->
  (forall t, gridfs_put E t = None) ->
  (forall t, fulfillment_api_up E t = true) ->
  email_str_valid E (sender_email email) = true ->
  (forall t, db_insert_one E t <> None) ->
  (forall t p, os_remove E t p = true) ->
  succeeded (fst (complete_claim E email w)) = true
  /\ (exists doc,
        fulfillment (snd (complete_claim E email w))
        = (fulfillment w ++ [doc])%list
        /\ doc_claim_id doc = claim_id email
        /\ doc_fulfillment_status doc = "completed"
        /\ doc_mail_content_file_id doc = None
        /\ doc_attachment_file_ids doc = [])
  /\ (forall p, In p (attachment_paths email) ->
                ~ In p (files (snd (complete_claim E email w)))).
Proof.
  intros Hclient Hput Hup Hvalid Hinsert Hos.
  destruct (upload_with_failing_puts email w Hclient Hput)
    as (stamp & Harchive).
  rewrite (complete_claim_with_archive email w _ Harchive).
  destruct (save_accepted email "completed" ""
              (Some {| upload_timestamp := stamp; mr_mail_content := None;
                       mr_attachments := [] |})
              (snd (upload_to_mongodb_for_completed_fulfillment E email w))
              Hup Hvalid Hinsert)
    as (id & created & Hid & Hstore).
  rewrite Hid. cbn [fst snd].
  destruct (cleanup_frame email
              (snd (save_to_fulfillment_table E email "completed" ""
                      (Some {| upload_timestamp := stamp;
                               mr_mail_content := None;
                               mr_attachments := [] |})
                      (snd (upload_to_mongodb_for_completed_fulfillment
                              E email w)))))
    as [(Hkeep & _) Hgone].
  destruct (same_disk_upload_to_mongodb email w) as (_ & _ & Hsame).
  split; [reflexivity|]. split.
  - eexists. split; [rewrite Hkeep, Hstore, Hsame; reflexivity|].
    repeat split; reflexivity.
  - now apply Hgone.
Qed.

End FurtherFulfillment.

(** ** The queue processor *)

Section FurtherQueue.

Import Fulfillment Monitor.

Variable E : environment.

Lemma fulfillment_of_completion {A : Type} (m : M A) :
  keeps completion_fp m -> keeps fulfillment_fp m.
Proof.
  apply keeps_weaken; auto.
  intros e He. destruct e; try discriminate He; reflexivity.
Qed.

Lemma fulfillment_save (email : email_data) (status missing : string)
  (result : option mongodb_result) :
  keeps fulfillment_fp
    (save_to_fulfillment_table E email status missing result).
Proof. apply fulfillment_of_completion, completion_save. Qed.

Lemma fulfillment_complete_claim (email : email_data) :
  keeps fulfillment_fp (complete_claim E email).
Proof. apply fulfillment_of_completion, completion_complete_claim. Qed.

Lemma fulfillment_send_mail (a b c : string) :
  keeps fulfillment_fp (send_mail_via_service E a b c).
Proof. unfold send_mail_via_service. keeps_auto. Qed.

Lemma fulfillment_assess (email : email_data) :
  keeps fulfillment_fp (assess_fulfillment_with_llm E email).
Proof. unfold assess_fulfillment_with_llm. keeps_auto. Qed.

Hint Resolve fulfillment_save fulfillment_complete_claim
  fulfillment_send_mail fulfillment_assess : keeps.

Lemma fulfillment_pend_claim (email : email_data) (a : assessment) :
  keeps fulfillment_fp (pend_claim E email a).
Proof. unfold pend_claim. keeps_auto. Qed.

Lemma fulfillment_assess_and_parse (email : email_data) :
  keeps fulfillment_fp (assess_and_parse E email).
Proof. unfold assess_and_parse. keeps_auto. Qed.

Hint Resolve fulfillment_pend_claim fulfillment_assess_and_parse : keeps.

Lemma fulfillment_process (email : email_data) :
  keeps fulfillment_fp (process_email_fulfillment E email).
Proof. unfold process_email_fulfillment. keeps_auto. Qed.

Lemma handling_send_unregistered (address claim : string) :
  keeps handling_fp
    (send_unregistered_user_email_via_service E address claim).
Proof.
  unfold send_unregistered_user_email_via_service.
  destruct (unregistered_user_email E address claim) as [[subject body]|];
    keeps_auto.
Qed.

Lemma handling_events_no_lookup (events : list event) :
  forallb handling_event events = true -> lookups events = [].
Proof.
  induction events as [|e rest IH]; simpl; [reflexivity|].
  intros H. apply andb_true_iff in H as [He Hrest].
  rewrite (IH Hrest). destruct e; try discriminate He; reflexivity.
Qed.

Lemma handling_of_fulfillment (events : list event) :
  forallb fulfillment_event events = true ->
  forallb handling_event events = true.
Proof.
  rewrite !forallb_forall. intros H e He. specialize (H e He).
  destruct e; try discriminate H; reflexivity.
Qed.

(** What the processing of one record logs when no exception interrupts
    it: the lookup of its sender, then events of its handling. *)
Lemma process_record_run (email : email_data) (w : world) :
  record_fault E (clock w) = false ->
  exists counted events,
    fst (process_record E email w) = Handled counted
    /\ log (snd (process_record E email w))
       = (log w
          ++ DirectoryLookup (sender_email email)
               (directory_get E (S (clock w)) (sender_email email))
             :: events)%list
    /\ forallb handling_event events = true
    /\ (confirms (directory_get E (S (clock w)) (sender_email email)) = true
        -> counted = true /\ forallb fulfillment_event events = true).
Proof.
  intros Hfault. unfold process_record, bind. simpl. rewrite Hfault.
  destruct (check_user_registration E (sender_email email) _)
    as [[registered user] w1] eqn:Hcheck.
  match type of Hcheck with
  | check_user_registration E _ ?w0 = _ =>
      pose proof (check_user_registration_verdict E (sender_email email) w0)
        as [Hverdict Hworld]
  end.
  rewrite Hcheck in Hverdict, Hworld. simpl in Hverdict, Hworld.
  subst w1. rewrite Hverdict.
  destruct (confirms _) eqn:Hconfirms; simpl.
  - match goal with
    | |- context [process_email_fulfillment E email ?w0] =>
        destruct (fulfillment_process email w0)
          as (_ & _ & events & Hlog & Hall);
        destruct (process_email_fulfillment E email w0) as [r w2]
    end.
    simpl in Hlog |- *. exists true, events.
    split; [reflexivity|]. split; [rewrite Hlog, <- app_assoc; reflexivity|].
    split; [now apply handling_of_fulfillment|]. intros _. now split.
  - match goal with
    | |- context [send_unregistered_user_email_via_service E ?a ?c ?w0] =>
        destruct (handling_send_unregistered a c w0)
          as (_ & _ & events & Hlog & Hall);
        destruct (send_unregistered_user_email_via_service E a c w0)
          as [sent w2]
    end.
    simpl in Hlog |- *. exists sent, events.
    split; [reflexivity|]. split; [rewrite Hlog, <- app_assoc; reflexivity|].
    split; [exact Hall|discriminate].
Qed.

(** X20. A sender the directory confirms never gets a registration
    notice: the record goes to the fulfillment engine, it is counted as
    processed whatever the engine reports, and after the lookup only events
    of the fulfillment are logged. *)
Theorem registered_sender_gets_no_notice (email : email_data) (w : world) :
  record_fault E (clock w) = false ->
  confirms (directory_get E (S (clock w)) (sender_email email)) = true ->
  exists events,
    fst (process_record E email w) = Handled true
    /\ logged w (snd (process_record E email w))
         (DirectoryLookup (sender_email email)
            (directory_get E (S (clock w)) (sender_email email)) :: events)
    /\ forallb fulfillment_event events = true
    /\ forall request reply,
         ~ In (RegistrationNotice request reply) events.
Proof.
  intros Hfault Hconfirms.
  destruct (process_record_run email w Hfault)
    as (counted & events & Hflow & Hlog & _ & Hregistered).
  destruct (Hregistered Hconfirms) as [-> Hall].
  exists events. repeat split; try assumption.
  intros request reply Hin.
  rewrite forallb_forall in Hall. apply Hall in Hin. discriminate Hin.
Qed.

Lemma lookups_app (l1 l2 : list event) :
  lookups (l1 ++ l2) = (lookups l1 ++ lookups l2)%list.
Proof. unfold lookups. apply flat_map_app. Qed.

Lemma drain_lookups (pending : list email_data) (n : nat) (w : world) :
  (forall t, record_fault E t = false) ->
  exists events,
    log (snd (drain E pending n w)) = (log w ++ events)%list
    /\ lookups events = map sender_email pending
    /\ fst (drain E pending n w) <= n + length pending.
Proof.
  intros Hnone. revert n w.
  induction pending as [|email rest IH]; intros n w.
  - exists []. simpl.
    split; [now rewrite app_nil_r|split; [reflexivity|lia]].
  - rewrite (drain_cons E).
    destruct (process_record_run email (snd (set_queue rest w)) (Hnone _))
      as (counted & events & Hflow & Hlog & Hall & _).
    rewrite Hflow.
    destruct (IH (if counted then S n else n)
                (snd (process_record E email (snd (set_queue rest w)))))
      as (events' & Hlog' & Hlookups & Hcount).
    eexists. split; [|split].
    + rewrite Hlog', Hlog. simpl. rewrite <- app_assoc. reflexivity.
    + simpl. rewrite lookups_app, (handling_events_no_lookup _ Hall),
        Hlookups. reflexivity.
    + cbn [length]. destruct counted; lia.
Qed.

(** X21. When no exception interrupts the drain, every queued record is
    looked up in the directory exactly once, in the order of the queue, and
    the counter the drain ends with does not exceed the number of records
    that were queued. *)
Theorem queue_is_served_in_order (w : world) :
  (forall t, record_fault E t = false) ->
  exists events,
    logged w (snd (process_email_queue E w)) events
    /\ lookups events = map sender_email (email_queue w)
    /\ fst (process_email_queue E w) <= length (email_queue w).
Proof.
  intros Hnone. unfold process_email_queue, bind, get. simpl.
  destruct (drain_lookups (email_queue w) 0 w Hnone)
    as (events & Hlog & Hlookups & Hcount).
  exists events. repeat split; assumption.
Qed.

(** X22. Processing the queue never touches the cursor and never fetches
    or classifies mail: the tracking collection is as before and every
    event it logs belongs to the handling of queued records. *)
Theorem queue_processing_leaves_cursor (w : world) :
  mail_tracking (snd (process_email_queue E w)) = mail_tracking w
  /\ exists events,
       logged w (snd (process_email_queue E w)) events
       /\ (forall i fetched, ~ In (FetchMessage i fetched) events)
       /\ (forall count inserted, ~ In (CursorInsert count inserted) events)
       /\ (forall id outcome, ~ In (ClassifierCall id outcome) events).
Proof.
  destruct (keeps_process_email_queue E w)
    as (_ & Htrack & events & Hlog & Hall).
  split; [now apply Htrack|].
  exists events. split; [exact Hlog|].
  rewrite forallb_forall in Hall.
  repeat split; intros ? ? Hin; apply Hall in Hin; discriminate Hin.
Qed.

End FurtherQueue.

(** ** The poll cycle and the fetch *)

Section FurtherPoll.

Import Fulfillment Monitor.

Variable E : environment.

(** X23. A cycle that finds no cursor, because the tracking collection is
    empty or because reading it failed, only sets the baseline: it writes
    the current count of the inbox and does nothing else; no message is
    fetched, the queue, the local files and the fulfillment collection are
    as before. *)
Theorem first_run_only_sets_baseline (w : world) :
  mail_tracking w = [] \/ tracking_find E (S (clock w)) = false ->
  logged w (snd (poll_cycle E w))
    [CursorInsert (inbox_count E (clock w))
       (tracking_insert E (S (S (clock w))))]
  /\ email_queue (snd (poll_cycle E w)) = email_queue w
  /\ same_disk w (snd (poll_cycle E w)).
Proof.
  intros Hnone.
  unfold poll_cycle, get_current_mail_count, get_stored_mail_details,
    update_mail_details, inbox_count, bind, now, get, emit, logged.
  simpl.
  assert (Hread :
    (if tracking_find E (S (clock w))
     then match rev (mail_tracking w) with
          | [] => ret (0, @None nat)
          | result :: _ =>
              ret (mail_count result, Some (last_connection_time result))
          end
     else ret (0, None))
    = ret (0, None)).
  { destruct Hnone as [-> | ->]; [now destruct (tracking_find E _)|
                                   reflexivity]. }
  destruct (imap_count E (clock w)) as [current|]; simpl;
    rewrite Hread; simpl;
    destruct (tracking_insert E (S (S (clock w)))); simpl;
    repeat split.
Qed.

Lemma quiet_cycle_tracking
  (w : world) (older : list tracking_doc) (latest : tracking_doc) :
  tracking_find E (S (clock w)) = true ->
  mail_tracking w = (older ++ [latest])%list ->
  inbox_count E (clock w) <= mail_count latest ->
  mail_tracking (snd (poll_cycle E w)) = mail_tracking w.
Proof.
  intros Hfind Htracking Hcount.
  unfold poll_cycle, get_current_mail_count, get_stored_mail_details,
    bind, now, get.
  unfold inbox_count in Hcount.
  simpl. destruct (imap_count E (clock w)) as [current|]; simpl;
    rewrite Hfind;
    replace (rev (mail_tracking w)) with (latest :: rev older)
      by (rewrite Htracking, rev_app_distr; reflexivity);
    simpl; [|reflexivity].
  apply Nat.ltb_ge in Hcount. now rewrite Hcount.
Qed.

(** X24. A cycle that finds no new mail has no effect: when the cursor is
    read and the current count of the inbox (0 when the inbox cannot be
    read) does not exceed it, nothing is logged and the cursor, the queue,
    the local files and the fulfillment collection are as before. *)
Theorem no_new_mail_no_effect
  (w : world) (older : list tracking_doc) (latest : tracking_doc) :
  tracking_find E (S (clock w)) = true ->
  mail_tracking w = (older ++ [latest])%list ->
  inbox_count E (clock w) <= mail_count latest ->
  log (snd (poll_cycle E w)) = log w
  /\ mail_tracking (snd (poll_cycle E w)) = mail_tracking w
  /\ email_queue (snd (poll_cycle E w)) = email_queue w
  /\ same_disk w (snd (poll_cycle E w)).
Proof.
  intros Hfind Htracking Hcount.
  unfold poll_cycle, get_current_mail_count, get_stored_mail_details,
    bind, now, get.
  unfold inbox_count in Hcount.
  simpl. destruct (imap_count E (clock w)) as [current|]; simpl;
    rewrite Hfind;
    replace (rev (mail_tracking w)) with (latest :: rev older)
      by (rewrite Htracking, rev_app_distr; reflexivity);
    simpl.
  - apply Nat.ltb_ge in Hcount. rewrite Hcount. simpl. repeat split.
  - repeat split.
Qed.

(** One cycle with a readable cursor: the tracking collection is as
    before, or gained one document with a greater count. *)
Lemma poll_cycle_tracking (w : world) :
  tracking_find E (S (clock w)) = true ->
  mail_tracking w <> [] ->
  mail_tracking (snd (poll_cycle E w)) = mail_tracking w
  \/ exists doc,
       mail_tracking (snd (poll_cycle E w))
       = (mail_tracking w ++ [doc])%list
       /\ stored_count w < mail_count doc.
Proof.
  intros Hfind Hnonempty.
  destruct (nonempty_last _ Hnonempty) as (older & latest & Htracking).
  rewrite (stored_count_last w older latest Htracking).
  destruct (le_lt_dec (inbox_count E (clock w)) (mail_count latest))
    as [Hle|Hlt].
  - left. now apply (quiet_cycle_tracking w older latest).
  - unfold inbox_count in Hlt.
    destruct (imap_count E (clock w)) as [current|] eqn:Hcount; [|lia].
    destruct latest as [stored time]. simpl in Hlt.
    rewrite (poll_cycle_with_new_mail E w older stored time current)
      by assumption.
    cbv zeta. unfold fetch_new_mails_to_queue.
    destruct (fetch_range_run E (seq (stored + 1) (current - stored)) 0
                (snd (now (snd (now w)))))
      as (Htrack1 & _).
    destruct (fetch_range E _ 0 (snd (now (snd (now w)))))
      as [emails_added w1]. cbn [fst snd] in *.
    destruct (update_mail_details_run E current w1) as [_ Htrack2].
    assert (Hafter :
      mail_tracking (if 0 <? emails_added
                     then snd (process_email_queue E
                                 (snd (update_mail_details E current w1)))
                     else snd (update_mail_details E current w1))
      = mail_tracking (snd (update_mail_details E current w1))).
    { destruct (0 <? emails_added); [|reflexivity].
      now apply (keeps_process_email_queue E). }
    rewrite Hafter, Htrack2, Htrack1. simpl.
    destruct (tracking_insert E (clock w1)); [right|now left].
    eexists. split; [reflexivity|]. exact Hlt.
Qed.

Lemma monitor_mails_step (n : nat) (w : world) :
  monitor_mails E (S n) w = monitor_mails E n (snd (poll_cycle E w)).
Proof.
  simpl. unfold bind. destruct (poll_cycle E w). reflexivity.
Qed.

(** X25. While the cursor can be read, it never moves back: over any
    number of poll cycles the tracking collection only grows at its end,
    and the latest stored count never decreases. *)
Theorem cursor_never_moves_back (n : nat) (w : world) :
  (forall t, tracking_find E t = true) ->
  mail_tracking w <> [] ->
  (exists added,
     mail_tracking (snd (monitor_mails E n w))
     = (mail_tracking w ++ added)%list)
  /\ stored_count w <= stored_count (snd (monitor_mails E n w)).
Proof.
  intros Hfind. revert w. induction n as [|n IH]; intros w Hnonempty.
  - split; [exists []; simpl; now rewrite app_nil_r|simpl; lia].
  - rewrite monitor_mails_step.
    destruct (poll_cycle_tracking w (Hfind _) Hnonempty)
      as [Hsame | (doc & Hgrow & Hless)].
    + assert (Hstored : stored_count (snd (poll_cycle E w)) = stored_count w)
        by (unfold stored_count; now rewrite Hsame).
      destruct (IH (snd (poll_cycle E w))) as [(added & Hadded) Hcount];
        [now rewrite Hsame|].
      split; [exists added; now rewrite Hadded, Hsame|lia].
    + assert (Hstored :
        stored_count (snd (poll_cycle E w)) = mail_count doc)
        by now apply (stored_count_last _ (mail_tracking w)).
      destruct (IH (snd (poll_cycle E w))) as [(added & Hadded) Hcount].
      { rewrite Hgrow. now destruct (mail_tracking w). }
      split; [|lia].
      exists (doc :: added).
      rewrite Hadded, Hgrow, <- app_assoc. reflexivity.
Qed.

(** *** What the fetch puts on the queue *)

Lemma discard_keeps_attachments (paths : list string) :
  keeps discard_fp (discard_attachments E paths).
Proof. induction paths as [|p rest IH]; simpl; keeps_auto. Qed.

Lemma discard_keeps_claim_folder (paths : list string) :
  keeps discard_fp (discard_claim_folder E paths).
Proof. unfold discard_claim_folder. keeps_auto. Qed.

Lemma ingest_message_queue
  (fetched : option (email_data * string)) (w : world) :
  (fst (ingest_message E fetched w) = false
   /\ email_queue (snd (ingest_message E fetched w)) = email_queue w)
  \/ (fst (ingest_message E fetched w) = true
      /\ exists email,
           accepted email
           /\ email_queue (snd (ingest_message E fetched w))
              = (email_queue w ++ [email])%list).
Proof.
  unfold ingest_message.
  destruct fetched as [[email claim_folder]|]; [|left; split; reflexivity].
  unfold bind, get, set_dirs, set_files, filter_email_with_llm, now, emit,
    ret. simpl.
  destruct (is_insurance (Classifier.filter_result E email
                            (llm_invoke E (clock w)))) eqn:Haccepted.
  - right. simpl. split; [reflexivity|].
    eexists. split; [|reflexivity].
    eexists. split; [reflexivity|exact Haccepted].
  - left.
    match goal with
    | |- context [discard_attachments E ?ps ?w0] =>
        pose proof (discard_keeps_attachments ps w0) as (Hq1 & _);
        destruct (discard_attachments E ps w0) as [[] w1]
    end.
    pose proof (discard_keeps_claim_folder (attachment_paths email) w1)
      as (Hq2 & _).
    destruct (discard_claim_folder E (attachment_paths email) w1)
      as [[] w2].
    simpl in *. split; [reflexivity|].
    rewrite (Hq2 eq_refl), (Hq1 eq_refl). reflexivity.
Qed.

Lemma fetch_one_queue (i : nat) (w : world) :
  (fst (fetch_one E i w) = false
   /\ email_queue (snd (fetch_one E i w)) = email_queue w)
  \/ (fst (fetch_one E i w) = true
      /\ exists email,
           accepted email
           /\ email_queue (snd (fetch_one E i w))
              = (email_queue w ++ [email])%list).
Proof.
  unfold fetch_one, bind, now, emit. simpl.
  match goal with
  | |- context [ingest_message E ?f ?w0] =>
      exact (ingest_message_queue f w0)
  end.
Qed.

(** X26. The fetch only appends to the queue: the records that were
    queued stay in place, the records added behind them are exactly as
    many as the count the fetch returns, and each of them carries a
    classification that accepted it. *)
Theorem fetch_appends_to_queue (stored current : nat) (w : world) :
  exists added,
    email_queue (snd (fetch_new_mails_to_queue E stored current w))
    = (email_queue w ++ added)%list
    /\ fst (fetch_new_mails_to_queue E stored current w) = length added
    /\ Forall accepted added.
Proof.
  unfold fetch_new_mails_to_queue.
  enough (Hloop : forall ids n w0,
            exists added,
              email_queue (snd (fetch_range E ids n w0))
              = (email_queue w0 ++ added)%list
              /\ fst (fetch_range E ids n w0) = n + length added
              /\ Forall accepted added)
    by apply (Hloop _ 0).
  induction ids as [|i rest IH]; intros n w0.
  - exists []. simpl. rewrite app_nil_r. repeat split; auto.
  - rewrite (fetch_range_cons E).
    destruct (fetch_one_queue i w0)
      as [[Hfalse Hqueue] | [Htrue (email & Haccepted & Hqueue)]].
    + rewrite Hfalse.
      destruct (IH n (snd (fetch_one E i w0))) as (added & Hq & Hn & Hall).
      exists added. rewrite Hq, Hn, Hqueue. repeat split; auto.
    + rewrite Htrue.
      destruct (IH (S n) (snd (fetch_one E i w0)))
        as (added & Hq & Hn & Hall).
      exists (email :: added). rewrite Hq, Hn, Hqueue, <- app_assoc.
      simpl. repeat split; auto.
Qed.

End FurtherPoll.

(** ** The further properties on concrete runs *)

Lemma no_attachment_no_override_witness :
  a_status (parsed offline "FULFILLMENT_STATUS: PENDING"
              (sample_email "a@b.c" "hello" [])) = COMPLETED
  <-> search Assessment.status_at "FULFILLMENT_STATUS: PENDING"
      = Some COMPLETED.
Proof.
  apply (no_attachment_no_override offline "FULFILLMENT_STATUS: PENDING"
           (sample_email "a@b.c" "hello" [])).
  - reflexivity.
  - vm_compute. reflexivity.
Defined.

Lemma pending_without_list_is_completed_witness :
  option_map a_status
    (Assessment.parse_fulfillment_response offline
       "FULFILLMENT_STATUS: PENDING" claimant)
  = Some COMPLETED.
Proof.
  rewrite (pending_without_list_is_completed offline
             "FULFILLMENT_STATUS: PENDING" claimant).
  - reflexivity.
  - vm_compute. discriminate.
  - vm_compute. reflexivity.
  - vm_compute. apply le_n.
Defined.

Lemma parse_total_without_template_witness :
  exists a,
    Assessment.parse_fulfillment_response offline pending_reply claimant
    = Some a
    /\ (a_status a = PENDING ->
        contains (a_missing_items a) (a_email_content a) = true).
Proof.
  exact (parse_total_without_template offline pending_reply claimant
           eq_refl).
Defined.

Lemma three_digits_count_as_amount_witness :
  Assessment.has_monetary_value
    (sample_email "a@b.c" "call 555 now" []) = true.
Proof.
  exact (three_digits_count_as_amount
           (sample_email "a@b.c" "call 555 now" [])
           "call " " now" "5"%char "5"%char "5"%char
           eq_refl eq_refl eq_refl eq_refl).
Defined.

Lemma json_span_is_braced_witness :
  exists before after,
    "x{a}y}z{" = before ++ "{a}y}" ++ after
    /\ ~ occurs "{" before
    /\ ~ occurs "}" after
    /\ first_char "{a}y}" = Some "{"%char
    /\ last_char "{a}y}" = Some "}"%char.
Proof.
  exact (json_span_is_braced "x{a}y}z{" "{a}y}" eq_refl).
Defined.

Lemma unparsed_reply_well_formed_witness :
  Classifier.well_formed
    (Classifier.filter_result offline claimant
       (LLMReply (StrContent "it is {not} json")))
  = true.
Proof.
  apply (unparsed_reply_well_formed offline).
  intros text span _ _. reflexivity.
Defined.

Lemma mail_content_is_bounded_witness :
  String.length
    (fr_mail_content (Fulfillment.api_data claimant "pending" "" None))
  <= 1000.
Proof.
  apply (proj1 (mail_content_is_bounded claimant "pending" "" None)).
  left. reflexivity.
Defined.


Lemma missing_prompt_drops_claim_witness :
  Fulfillment.process_email_fulfillment no_prompts claimant one_claim
  = (Fulfillment.RFalse, one_claim).
Proof.
  apply (missing_prompt_drops_claim no_prompts claimant one_claim).
  left. reflexivity.
Defined.

Lemma failed_assessment_drops_claim_witness :
  fst (Fulfillment.process_email_fulfillment offline claimant one_claim)
  = Fulfillment.RFalse
  /\ same_disk one_claim
       (snd (Fulfillment.process_email_fulfillment offline claimant
               one_claim))
  /\ logged one_claim
       (snd (Fulfillment.process_email_fulfillment offline claimant
               one_claim))
       [AssessmentCall "CLAIM_0A1B2C3D" LLMRaises].
Proof.
  apply (failed_assessment_drops_claim offline claimant one_claim
           "You assess insurance claims.").
  - reflexivity.
  - discriminate.
  - left. reflexivity.
Defined.

Lemma unformattable_template_drops_claim_witness :
  fst (Fulfillment.process_email_fulfillment broken_template claimant
         one_claim)
  = Fulfillment.RFalse
  /\ same_disk one_claim
       (snd (Fulfillment.process_email_fulfillment broken_template claimant
               one_claim))
  /\ logged one_claim
       (snd (Fulfillment.process_email_fulfillment broken_template claimant
               one_claim))
       [AssessmentCall "CLAIM_0A1B2C3D"
          (LLMReply (StrContent pending_reply))].
Proof.
  apply (unformattable_template_drops_claim broken_template claimant
           one_claim "You assess insurance claims." pending_reply
           (snd (fst (Assessment.settle pending_reply claimant)))
           (snd (Assessment.settle pending_reply claimant))).
  - reflexivity.
  - discriminate.
  - reflexivity.
  - vm_compute. discriminate.
  - vm_compute. reflexivity.
  - vm_compute. reflexivity.
Defined.

Lemma cleanup_removes_every_attachment_witness :
  ~ In photo
      (files (snd (Fulfillment.cleanup_local_files_after_mongodb_upload
                     offline claimant one_claim))).
Proof.
  apply (cleanup_removes_every_attachment offline claimant one_claim).
  - intros t p. reflexivity.
  - left. reflexivity.
Defined.

Lemma unsaved_completed_claim_keeps_files_witness :
  fst (Fulfillment.complete_claim store_down claimant client_set)
  = Fulfillment.RNone
  /\ same_disk client_set
       (snd (Fulfillment.complete_claim store_down claimant client_set)).
Proof.
  apply (unsaved_completed_claim_keeps_files store_down claimant client_set
           (archived store_down claimant client_set)).
  - vm_compute. reflexivity.
  - vm_compute. reflexivity.
Defined.

Lemma empty_archive_still_deletes_files_witness :
  ~ In photo
      (files (snd (Fulfillment.complete_claim archive_down claimant
                     client_set))).
Proof.
  apply (empty_archive_still_deletes_files archive_down claimant client_set).
  - reflexivity.
  - intros t. reflexivity.
  - intros t. reflexivity.
  - reflexivity.
  - intros t. discriminate.
  - intros t p. reflexivity.
  - left. reflexivity.
Defined.

Lemma registered_sender_gets_no_notice_witness :
  exists events,
    fst (Monitor.process_record known_sender claimant one_claim)
    = Monitor.Handled true
    /\ logged one_claim
         (snd (Monitor.process_record known_sender claimant one_claim))
         (DirectoryLookup "customer@example.com"
            (directory_get known_sender 1 "customer@example.com") :: events)
    /\ forallb fulfillment_event events = true
    /\ forall request reply,
         ~ In (RegistrationNotice request reply) events.
Proof.
  exact (registered_sender_gets_no_notice known_sender claimant one_claim
           eq_refl eq_refl).
Defined.

Lemma queue_is_served_in_order_witness :
  exists events,
    logged two_queued
      (snd (Monitor.process_email_queue unknown_sender two_queued)) events
    /\ lookups events = ["customer@example.com"; "other@example.com"]
    /\ fst (Monitor.process_email_queue unknown_sender two_queued) <= 2.
Proof.
  apply (queue_is_served_in_order unknown_sender two_queued).
  intros t. reflexivity.
Defined.

Lemma first_run_only_sets_baseline_witness :
  logged empty_world (snd (Monitor.poll_cycle fetch_fails empty_world))
    [CursorInsert 11 true]
  /\ email_queue (snd (Monitor.poll_cycle fetch_fails empty_world)) = []
  /\ same_disk empty_world (snd (Monitor.poll_cycle fetch_fails empty_world)).
Proof.
  apply (first_run_only_sets_baseline fetch_fails empty_world).
  left. reflexivity.
Defined.

Lemma no_new_mail_no_effect_witness :
  log (snd (Monitor.poll_cycle offline ten_seen)) = []
  /\ mail_tracking (snd (Monitor.poll_cycle offline ten_seen))
     = mail_tracking ten_seen
  /\ email_queue (snd (Monitor.poll_cycle offline ten_seen)) = []
  /\ same_disk ten_seen (snd (Monitor.poll_cycle offline ten_seen)).
Proof.
  apply (no_new_mail_no_effect offline ten_seen []
           {| mail_count := 10; last_connection_time := 0 |}).
  - reflexivity.
  - reflexivity.
  - vm_compute. lia.
Defined.

Lemma cursor_never_moves_back_witness :
  (exists added,
     mail_tracking (snd (Monitor.monitor_mails fetch_fails 3 ten_seen))
     = (mail_tracking ten_seen ++ added)%list)
  /\ stored_count ten_seen
     <= stored_count (snd (Monitor.monitor_mails fetch_fails 3 ten_seen)).
Proof.
  apply (cursor_never_moves_back fetch_fails 3 ten_seen).
  - intros t. reflexivity.
  - discriminate.
Defined.
